(** * Medical Report Translation Pipeline: a shallow embedding of
    [process_reports.py]

    The development follows the source file top-down: Python strings and the
    string methods the script calls, the JSON values and the decoder behind
    [json.loads], the helpers that talk to the inference backend, and the batch
    loop of [main].  Diagnostics printed with [print] are not modelled. *)

From Stdlib Require Import String Ascii DecimalString List NArith ZArith Bool Lia.
Import ListNotations.

Set Implicit Arguments.
Set Warnings "-register-all".

(** ** Python strings

    A Python [str] is a sequence of Unicode code points and [len] counts code
    points, so a string is a list of code points here. *)
Module PyStr.

Definition char := N.
Definition str := list char.

(** Literals of the script, written as Rocq strings of ASCII characters. *)
Definition lit (s : string) : str := map N_of_ascii (list_ascii_of_string s).

(** The double quote, which a literal cannot hold. *)
Definition dq : str := [34%N].

Fixpoint eqb (a b : str) : bool :=
  match a, b with
  | [], [] => true
  | x :: a', y :: b' => N.eqb x y && eqb a' b'
  | _, _ => false
  end.

(** [s.startswith(p)] *)
Fixpoint startswith (s p : str) : bool :=
  match p, s with
  | [], _ => true
  | y :: p', x :: s' => N.eqb x y && startswith s' p'
  | _ :: _, [] => false
  end.

(** [sub in s] for two strings. *)
Fixpoint contains (sub s : str) : bool :=
  startswith s sub ||
  match s with
  | [] => false
  | _ :: s' => contains sub s'
  end.

(** The scan of [s.replace(old, new)] for a non-empty [old]: occurrences are
    taken left to right and do not overlap.  [skip] counts the characters of
    the occurrence just replaced that are still to be passed over. *)
Fixpoint replace_scan (old new s : str) (skip : nat) : str :=
  match s with
  | [] => []
  | c :: s' =>
      match skip with
      | S k => replace_scan old new s' k
      | O =>
          if startswith s old
          then new ++ replace_scan old new s' (length old - 1)
          else c :: replace_scan old new s' 0
      end
  end.

(** [s.replace(old, new)]; an empty [old] matches before every character and
    at the end. *)
Definition replace (old new s : str) : str :=
  match old with
  | [] => new ++ flat_map (fun c => c :: new) s
  | _ :: _ => replace_scan old new s 0
  end.

(** [c.isspace()]: the code points Python's [str.strip()] removes. *)
Definition isspace (c : char) : bool :=
  ((9 <=? c) && (c <=? 13) || (28 <=? c) && (c <=? 32)
   || (c =? 133) || (c =? 160) || (c =? 5760)
   || (8192 <=? c) && (c <=? 8202)
   || (c =? 8232) || (c =? 8233) || (c =? 8239) || (c =? 8287)
   || (c =? 12288))%N.

Fixpoint lstrip (s : str) : str :=
  match s with
  | [] => []
  | c :: s' => if isspace c then lstrip s' else s
  end.

Definition rstrip (s : str) : str := rev (lstrip (rev s)).

(** [s.strip()] *)
Definition strip (s : str) : str := rstrip (lstrip s).

(** Truth value of a string: [bool(s)]. *)
Definition nonempty (s : str) : bool :=
  match s with [] => false | _ :: _ => true end.

End PyStr.
Import PyStr.

(** ** JSON values and [json.loads]

    The values [json.loads] builds, and the decoder of CPython's [json]
    package in its default (strict) configuration: [scan_once], [scanstring],
    [JSONObject] and [JSONArray].  A [JSONDecodeError] is [None]. *)
Module Json.

(** A Python [float] read from a decimal literal is the binary64 number nearest
    to [digits * 10 ^ exp10]; only its sign and whether it is zero matter
    here, and both are read off the literal. *)
Inductive pyfloat : Type :=
| FNaN
| FInf (negative : bool)
| FDec (negative : bool) (digits : N) (exp10 : Z).

Inductive value : Type :=
| VNone
| VBool (b : bool)
| VInt (z : Z)
| VFloat (f : pyfloat)
| VStr (s : str)
| VList (l : list value)
| VDict (d : list (str * value)).

(** A literal rounds to zero exactly when it is at most half the least
    subnormal, [2 ^ -1075] (the tie goes to the even neighbour, zero). *)
Definition float_is_zero (f : pyfloat) : bool :=
  match f with
  | FNaN | FInf _ => false
  | FDec _ m e =>
      (m =? 0)%N ||
      ((e <? 0)%Z && (Z.of_N m * 2 ^ 1075 <=? 10 ^ (- e))%Z)
  end.

(** [bool(v)] *)
Definition truthy (v : value) : bool :=
  match v with
  | VNone => false
  | VBool b => b
  | VInt z => negb (z =? 0)%Z
  | VFloat f => negb (float_is_zero f)
  | VStr s => nonempty s
  | VList l => match l with [] => false | _ :: _ => true end
  | VDict d => match d with [] => false | _ :: _ => true end
  end.

(** Dictionaries keep their keys in the order of first insertion. *)
Fixpoint dict_lookup (d : list (str * value)) (k : str) : option value :=
  match d with
  | [] => None
  | (k', v) :: d' => if eqb k' k then Some v else dict_lookup d' k
  end.

(** [d[k] = v] *)
Fixpoint dict_set (d : list (str * value)) (k : str) (v : value)
  : list (str * value) :=
  match d with
  | [] => [(k, v)]
  | (k', v') :: d' =>
      if eqb k' k then (k', v) :: d' else (k', v') :: dict_set d' k v
  end.



Definition ch (a : ascii) : char := N_of_ascii a.
Arguments ch a%_char.

Definition quote : char := 34%N.
Definition backslash : char := 92%N.

(** [WHITESPACE]: space, tab, line feed and carriage return. *)
Definition is_ws (c : char) : bool :=
  ((c =? 32) || (c =? 9) || (c =? 10) || (c =? 13))%N.

Fixpoint skip_ws (s : str) : str :=
  match s with
  | [] => []
  | c :: r => if is_ws c then skip_ws r else s
  end.

Definition is_digit (c : char) : bool := ((48 <=? c) && (c <=? 57))%N.

Fixpoint span_digits (s : str) : str * str :=
  match s with
  | [] => ([], [])
  | c :: r =>
      if is_digit c
      then let (d, r') := span_digits r in (c :: d, r')
      else ([], s)
  end.

Definition digits_value (d : str) : N :=
  fold_left (fun acc c => (10 * acc + (c - 48))%N) d 0%N.

(** [NUMBER_RE]: an optional minus sign and an integer part (a lone zero, or
    a non-zero digit and further digits), then an optional fraction (a dot and
    digits) and an optional exponent (e or E, an optional sign, digits); and
    the choice between [int] and [float] that [scan_once] makes on the
    groups. *)
Definition match_integer (s : str) : option (bool * str * str) :=
  let '(neg, s1) :=
    match s with
    | c :: r => if (c =? ch "-")%N then (true, r) else (false, s)
    | [] => (false, s)
    end in
  match s1 with
  | c :: r =>
      if (c =? ch "0")%N then Some (neg, [c], r)
      else if is_digit c
      then let (d, r') := span_digits r in Some (neg, c :: d, r')
      else None
  | [] => None
  end.

Definition match_frac (s : str) : option (str * str) :=
  match s with
  | c :: r =>
      if (c =? ch ".")%N
      then match span_digits r with
           | ([], _) => None
           | (d, r') => Some (d, r')
           end
      else None
  | [] => None
  end.

Definition match_exp (s : str) : option (Z * str) :=
  match s with
  | c :: r =>
      if ((c =? ch "e") || (c =? ch "E"))%N
      then
        let '(neg, r1) :=
          match r with
          | sg :: r0 =>
              if (sg =? ch "-")%N then (true, r0)
              else if (sg =? ch "+")%N then (false, r0)
              else (false, r)
          | [] => (false, r)
          end in
        match span_digits r1 with
        | ([], _) => None
        | (d, r') =>
            let e := Z.of_N (digits_value d) in
            Some (if neg then (- e)%Z else e, r')
        end
      else None
  | [] => None
  end.

Definition match_number (s : str) : option (value * str) :=
  match match_integer s with
  | None => None
  | Some (neg, int, r) =>
      match match_frac r, match_exp r with
      | None, None =>
          let n := Z.of_N (digits_value int) in
          Some (VInt (if neg then (- n)%Z else n), r)
      | None, Some (e, r') =>
          Some (VFloat (FDec neg (digits_value int) e), r')
      | Some (frac, r1), _ =>
          let m := digits_value (int ++ frac) in
          let shift := Z.of_nat (length frac) in
          match match_exp r1 with
          | None => Some (VFloat (FDec neg m (- shift)%Z), r1)
          | Some (e, r') => Some (VFloat (FDec neg m (e - shift)%Z), r')
          end
      end
  end.

(** [BACKSLASH]: the one-character escapes. *)
Definition backslash_table (esc : char) : option char :=
  if (esc =? quote)%N then Some quote
  else if (esc =? backslash)%N then Some backslash
  else if (esc =? ch "/")%N then Some (ch "/")
  else if (esc =? ch "b")%N then Some 8%N
  else if (esc =? ch "f")%N then Some 12%N
  else if (esc =? ch "n")%N then Some 10%N
  else if (esc =? ch "r")%N then Some 13%N
  else if (esc =? ch "t")%N then Some 9%N
  else None.

Definition hexval (c : char) : option N :=
  if is_digit c then Some (c - 48)%N
  else if ((97 <=? c) && (c <=? 102))%N then Some (c - 87)%N
  else if ((65 <=? c) && (c <=? 70))%N then Some (c - 55)%N
  else None.

(** [_decode_uXXXX] on the four characters after [\u]. *)
Definition decode_uXXXX (h1 h2 h3 h4 : char) : option N :=
  match hexval h1, hexval h2, hexval h3, hexval h4 with
  | Some a, Some b, Some c, Some d =>
      Some (((a * 16 + b) * 16 + c) * 16 + d)%N
  | _, _, _, _ => None
  end.

Definition is_high_surrogate (u : N) : bool :=
  ((55296 <=? u) && (u <=? 56319))%N.
Definition is_low_surrogate (u : N) : bool :=
  ((56320 <=? u) && (u <=? 57343))%N.
Definition join_surrogates (hi lo : N) : N :=
  (65536 + N.lor (N.shiftl (hi - 55296) 10) (lo - 56320))%N.

(** [scanstring(s, end, strict=True)], entered after the opening quote;
    [chunks] holds the decoded characters so far, last first. *)
Fixpoint scanstring (s : str) (chunks : str) : option (str * str) :=
  match s with
  | [] => None
  | c :: r =>
      if (c =? quote)%N then Some (rev chunks, r)
      else if (c =? backslash)%N then
        match r with
        | [] => None
        | esc :: r1 =>
            if (esc =? ch "u")%N then
              match r1 with
              | h1 :: h2 :: h3 :: h4 :: r2 =>
                  match decode_uXXXX h1 h2 h3 h4 with
                  | None => None
                  | Some uni =>
                      if is_high_surrogate uni then
                        match r2 with
                        | b :: u :: r3 =>
                            if ((b =? backslash) && (u =? ch "u"))%N then
                              match r3 with
                              | l1 :: l2 :: l3 :: l4 :: r4 =>
                                  match decode_uXXXX l1 l2 l3 l4 with
                                  | None => None
                                  | Some uni2 =>
                                      if is_low_surrogate uni2
                                      then scanstring r4
                                             (join_surrogates uni uni2 :: chunks)
                                      else scanstring r2 (uni :: chunks)
                                  end
                              | _ => None
                              end
                            else scanstring r2 (uni :: chunks)
                        | _ => scanstring r2 (uni :: chunks)
                        end
                      else scanstring r2 (uni :: chunks)
                  end
              | _ => None
              end
            else
              match backslash_table esc with
              | Some c' => scanstring r1 (c' :: chunks)
              | None => None
              end
        end
      else if (c <? 32)%N then None
      else scanstring r (c :: chunks)
  end.

(** The recursive descent.  [scan_once] reads one value at the head of [s];
    [object_items] is the [while] loop of [JSONObject], entered after the
    opening quote of a key; [array_items] is the loop of [JSONArray], entered
    at the start of an element.  [fuel] bounds the number of nested calls. *)
Fixpoint scan_once (fuel : nat) (s : str) : option (value * str) :=
  match fuel with
  | O => None
  | S fuel' =>
      match s with
      | [] => None
      | c :: r =>
          if (c =? quote)%N then
            match scanstring r [] with
            | Some (t, r') => Some (VStr t, r')
            | None => None
            end
          else if (c =? ch "{")%N then
            match skip_ws r with
            | c1 :: r1 =>
                if (c1 =? ch "}")%N then Some (VDict [], r1)
                else if (c1 =? quote)%N then object_items fuel' r1 []
                else None
            | [] => None
            end
          else if (c =? ch "[")%N then
            match skip_ws r with
            | c1 :: r1 =>
                if (c1 =? ch "]")%N then Some (VList [], r1)
                else array_items fuel' (c1 :: r1) []
            | [] => None
            end
          else if startswith s (lit "null") then Some (VNone, skipn 4 s)
          else if startswith s (lit "true") then Some (VBool true, skipn 4 s)
          else if startswith s (lit "false") then Some (VBool false, skipn 5 s)
          else
            match match_number s with
            | Some res => Some res
            | None =>
                if startswith s (lit "NaN")
                then Some (VFloat FNaN, skipn 3 s)
                else if startswith s (lit "Infinity")
                then Some (VFloat (FInf false), skipn 8 s)
                else if startswith s (lit "-Infinity")
                then Some (VFloat (FInf true), skipn 9 s)
                else None
            end
      end
  end
with object_items (fuel : nat) (s : str) (pairs : list (str * value))
  : option (value * str) :=
  match fuel with
  | O => None
  | S fuel' =>
      match scanstring s [] with
      | None => None
      | Some (key, r) =>
          match skip_ws r with
          | c :: r1 =>
              if (c =? ch ":")%N then
                match scan_once fuel' (skip_ws r1) with
                | None => None
                | Some (v, r2) =>
                    let pairs' := dict_set pairs key v in
                    match skip_ws r2 with
                    | c2 :: r3 =>
                        if (c2 =? ch "}")%N then Some (VDict pairs', r3)
                        else if (c2 =? ch ",")%N then
                          match skip_ws r3 with
                          | q :: r4 =>
                              if (q =? quote)%N
                              then object_items fuel' r4 pairs'
                              else None
                          | [] => None
                          end
                        else None
                    | [] => None
                    end
                end
              else None
          | [] => None
          end
      end
  end
with array_items (fuel : nat) (s : str) (values : list value)
  : option (value * str) :=
  match fuel with
  | O => None
  | S fuel' =>
      match scan_once fuel' s with
      | None => None
      | Some (v, r) =>
          match skip_ws r with
          | c :: r1 =>
              if (c =? ch "]")%N then Some (VList (rev (v :: values)), r1)
              else if (c =? ch ",")%N
              then array_items fuel' (skip_ws r1) (v :: values)
              else None
          | [] => None
          end
      end
  end.

(** [json.loads(s)] for a [str]: no byte order mark, one value between
    optional whitespace, nothing after it.  Every nested call of the descent
    reads at least one character within two calls, hence the fuel.  The
    limits of the interpreter (recursion depth, digits of an integer
    literal) are not part of this decoder; [json_loads_in], further down,
    has them. *)
Definition json_loads (s : str) : option value :=
  if startswith s [65279%N] then None
  else
    match scan_once (2 * length s + 2) (skip_ws s) with
    | Some (v, r) =>
        match skip_ws r with
        | [] => Some v
        | _ :: _ => None
        end
    | None => None
    end.

End Json.
Import Json.

(** ** Effects

    The script runs against a file system, a document converter and an
    inference backend.  A computation threads a state and either returns or is
    left by an exception that nothing in the script catches. *)
Inductive exn : Type :=
| TypeError
| AttributeError
| RecursionError
| ValueError
| UnicodeEncodeError.

Inductive result (A : Type) : Type :=
| Ok (a : A)
| Raise (e : exn).
Arguments Raise {A} e.

Definition M (S A : Type) : Type := S -> result A * S.

Definition ret {S A : Type} (a : A) : M S A := fun st => (Ok a, st).

Definition raise {S A : Type} (e : exn) : M S A := fun st => (Raise e, st).

Definition bind {S A B : Type} (c : M S A) (k : A -> M S B) : M S B :=
  fun st =>
    match c st with
    | (Ok a, st') => k a st'
    | (Raise e, st') => (Raise e, st')
    end.

Declare Scope py_scope.
Delimit Scope py_scope with py.
Notation "x <- c ;; k" := (bind c (fun x => k))
  (at level 61, c at next level, right associativity) : py_scope.
Notation "c ;;; k" := (bind c (fun _ => k))
  (at level 61, right associativity) : py_scope.
Open Scope py_scope.

(** ** Requests to the inference backend *)
Inductive content_part : Type :=
| TextPart (text : str)
| ImageUrl (url : str).

Inductive content : Type :=
| Text (s : str)
| Parts (l : list content_part).

Record message : Type := Message { role : str; body : content }.

Record payload : Type := Payload {
  model : str;
  messages : list message;
  temperature : option pyfloat;
  max_tokens : option N
}.

(** What [requests.post] followed by [raise_for_status] and the lookup of
    [choices[0].message.content] gives: the content string, or a
    [RequestException] carrying its text. *)
Inductive response : Type :=
| Content (c : str)
| RequestException (e : str).

(** A request that carries a page image, as the OCR call sends it. *)
Definition is_image_part (p : content_part) : bool :=
  match p with ImageUrl _ => true | TextPart _ => false end.

Definition is_vision_request (p : payload) : bool :=
  existsb (fun m => match body m with
                    | Parts l => existsb is_image_part l
                    | Text _ => false
                    end) (messages p).

(** Calls that leave the script, in the order they are made. *)
Inductive event : Type :=
| EvConvert (docx : str)
| EvRasterize (pdf : str)
| EvReadText (pdf : str)
| EvPost (p : payload)
| EvRemove (pdf : str).

Definition is_rasterize (e : event) : bool :=
  match e with EvRasterize _ => true | _ => false end.

Definition is_ocr_call (e : event) : bool :=
  match e with EvPost p => is_vision_request p | _ => false end.

(** Events other than rasterizing a PDF and sending a page image. *)
Definition no_ocr (e : event) : bool :=
  negb (is_rasterize e) && negb (is_ocr_call e).

(** The final report of one document. *)
Record final_report : Type := FinalReport {
  source_file : str;
  patient_group : value;
  patient_id : value;
  age : value;
  gender : value;
  captions_ru : value;
  captions_en : value;
  captions_kz : value
}.

(** --- Configuration --- *)
Definition VISION_MODEL_NAME : str := lit "google/gemma-3-12b".

Definition nl : str := [10%N].

(** A double-quoted word of a prompt. *)
Definition q (s : string) : str := dq ++ lit s ++ dq.

Definition unlines (ls : list str) : str := flat_map (fun l => l ++ nl) ls.

(** [parse_llm_json_output(text)]: both [replace] calls, then [json.loads];
    a [JSONDecodeError] is caught and gives [None]. *)
Definition strip_fences (text : str) : str :=
  replace (lit "```") [] (replace (lit "json") [] text).

Definition parse_llm_json_output (text : str) : value :=
  match json_loads (strip_fences text) with
  | Some v => v
  | None => VNone
  end.

(** [k in v] for a string [k]: key membership in a dictionary, element
    membership in a list, substring test in a string, and a [TypeError] on
    every value that is not a container. *)
Definition value_is_str (k : str) (v : value) : bool :=
  match v with VStr s => eqb s k | _ => false end.

Definition py_in (k : str) (v : value) : result bool :=
  match v with
  | VDict d => Ok (match dict_lookup d k with Some _ => true | None => false end)
  | VList l => Ok (existsb (value_is_str k) l)
  | VStr s => Ok (contains k s)
  | VNone | VBool _ | VInt _ | VFloat _ => Raise TypeError
  end.

(** [v.get(k, default)]: only a dictionary has the method. *)
Definition py_get (v : value) (k : str) (default : value) : result value :=
  match v with
  | VDict d =>
      Ok (match dict_lookup d k with Some x => x | None => default end)
  | _ => Raise AttributeError
  end.

Definition lift {S A : Type} (r : result A) : M S A := fun st => (r, st).

(** ** The limits of the interpreter

    [json.loads] and the handler around it meet three limits that the decoder
    above leaves out.  Entering an array or an object takes one level of the
    recursion the interpreter still allows, and raises a [RecursionError]
    when none is left; an integer literal with more digits than
    [sys.get_int_max_str_digits()] raises a [ValueError]; and the [print] of
    the handler raises when the standard output does not take the text.  None
    of the three is a [json.JSONDecodeError], the one exception
    [parse_llm_json_output] catches. *)
Record interpreter : Type := Interpreter {
  recursion_budget : nat;
  int_max_str_digits : option nat;
  print_failure : str -> option exn
}.

(** What a scanner makes of its input: a value and the rest of the input, a
    [JSONDecodeError], another exception, or no answer within the fuel. *)
Inductive scanned : Type :=
| Scanned (v : value) (rest : str)
| Rejected
| Escaped (e : exn)
| Unfinished.

Definition too_many_digits (I : interpreter) (digits : str) : bool :=
  match int_max_str_digits I with
  | Some n => (n <? length digits)%nat
  | None => false
  end.

(** [_match_number]: an integer literal is converted by [int], which checks
    the number of its digits. *)
Definition match_number_in (I : interpreter) (s : str) : scanned :=
  match match_number s with
  | None => Rejected
  | Some (v, r) =>
      match v, match_integer s with
      | VInt _, Some (_, int, _) =>
          if too_many_digits I int then Escaped ValueError else Scanned v r
      | _, _ => Scanned v r
      end
  end.

(** The descent of [scan_once] with the recursion the interpreter allows:
    [depth] is the number of arrays and objects that may still be entered. *)
Fixpoint scan_once_in (I : interpreter) (fuel depth : nat) (s : str)
  : scanned :=
  match fuel with
  | O => Unfinished
  | S fuel' =>
      match s with
      | [] => Rejected
      | c :: r =>
          if (c =? quote)%N then
            match scanstring r [] with
            | Some (t, r') => Scanned (VStr t) r'
            | None => Rejected
            end
          else if (c =? ch "{")%N then
            match depth with
            | O => Escaped RecursionError
            | S depth' =>
                match skip_ws r with
                | c1 :: r1 =>
                    if (c1 =? ch "}")%N then Scanned (VDict []) r1
                    else if (c1 =? quote)%N
                    then object_items_in I fuel' depth' r1 []
                    else Rejected
                | [] => Rejected
                end
            end
          else if (c =? ch "[")%N then
            match depth with
            | O => Escaped RecursionError
            | S depth' =>
                match skip_ws r with
                | c1 :: r1 =>
                    if (c1 =? ch "]")%N then Scanned (VList []) r1
                    else array_items_in I fuel' depth' (c1 :: r1) []
                | [] => Rejected
                end
            end
          else if startswith s (lit "null") then Scanned VNone (skipn 4 s)
          else if startswith s (lit "true")
          then Scanned (VBool true) (skipn 4 s)
          else if startswith s (lit "false")
          then Scanned (VBool false) (skipn 5 s)
          else
            match match_number_in I s with
            | Rejected =>
                if startswith s (lit "NaN")
                then Scanned (VFloat FNaN) (skipn 3 s)
                else if startswith s (lit "Infinity")
                then Scanned (VFloat (FInf false)) (skipn 8 s)
                else if startswith s (lit "-Infinity")
                then Scanned (VFloat (FInf true)) (skipn 9 s)
                else Rejected
            | other => other
            end
      end
  end
with object_items_in (I : interpreter) (fuel depth : nat) (s : str)
  (pairs : list (str * value)) : scanned :=
  match fuel with
  | O => Unfinished
  | S fuel' =>
      match scanstring s [] with
      | None => Rejected
      | Some (key, r) =>
          match skip_ws r with
          | c :: r1 =>
              if (c =? ch ":")%N then
                match scan_once_in I fuel' depth (skip_ws r1) with
                | Scanned v r2 =>
                    let pairs' := dict_set pairs key v in
                    match skip_ws r2 with
                    | c2 :: r3 =>
                        if (c2 =? ch "}")%N then Scanned (VDict pairs') r3
                        else if (c2 =? ch ",")%N then
                          match skip_ws r3 with
                          | q :: r4 =>
                              if (q =? quote)%N
                              then object_items_in I fuel' depth r4 pairs'
                              else Rejected
                          | [] => Rejected
                          end
                        else Rejected
                    | [] => Rejected
                    end
                | other => other
                end
              else Rejected
          | [] => Rejected
          end
      end
  end
with array_items_in (I : interpreter) (fuel depth : nat) (s : str)
  (values : list value) : scanned :=
  match fuel with
  | O => Unfinished
  | S fuel' =>
      match scan_once_in I fuel' depth s with
      | Scanned v r =>
          match skip_ws r with
          | c :: r1 =>
              if (c =? ch "]")%N then Scanned (VList (rev (v :: values))) r1
              else if (c =? ch ",")%N
              then array_items_in I fuel' depth (skip_ws r1) (v :: values)
              else Rejected
          | [] => Rejected
          end
      | other => other
      end
  end.

(** [json.loads(s)] in the interpreter [I]. *)
Definition json_loads_in (I : interpreter) (s : str) : scanned :=
  if startswith s [65279%N] then Rejected
  else
    match scan_once_in I (2 * length s + 2) (recursion_budget I) (skip_ws s) with
    | Scanned v r =>
        match skip_ws r with
        | [] => Scanned v []
        | _ :: _ => Rejected
        end
    | other => other
    end.

(** [parse_llm_json_output(text)] in the interpreter [I]: what the call
    returns or raises.  The handler of [JSONDecodeError] prints the text left
    by the two [replace] calls and returns [None]; any other exception leaves
    the function.  The answer is [None] only where the fuel of the model runs
    out. *)
Definition parse_llm_json_output_in (I : interpreter) (text : str)
  : option (result value) :=
  let text := strip_fences text in
  match json_loads_in I text with
  | Scanned v _ => Some (Ok v)
  | Rejected =>
      Some (match print_failure I text with
            | Some e => Raise e
            | None => Ok VNone
            end)
  | Escaped e => Some (Raise e)
  | Unfinished => None
  end.

(** A scanner with limits and the decoder without agree wherever the first
    ends without an exception other than [JSONDecodeError]. *)
Definition agrees (x : scanned) (o : option (value * str)) : Prop :=
  match x with
  | Scanned v r => o = Some (v, r)
  | Rejected | Unfinished => o = None
  | Escaped _ => True
  end.

(** The two errors of the limits. *)
Definition limit_error (x : scanned) : Prop :=
  match x with
  | Escaped e => e = RecursionError \/ e = ValueError
  | _ => True
  end.

(** Page texts joined with a blank line between two of them: the resolved
    text as the specification words it. *)
Fixpoint separated_by_blank_lines (texts : list str) : str :=
  match texts with
  | [] => []
  | [t] => t
  | t :: rest => t ++ nl ++ nl ++ separated_by_blank_lines rest
  end.

Section Pipeline.

Variable World : Type.
Variable Image : Type.

(** The collaborators of the script.  Each call may depend on, and change, the
    world.  [docx2pdf] is the [try] body of [convert_docx_to_pdf]: the path of
    the temporary PDF, or [None] when anything in it raised.  [render_pages]
    and [page_texts] are the [try] bodies of [pdf_to_images] and
    [pdf_to_text] up to the same convention.  [json_dumps] is
    [json.dumps(_, ensure_ascii=False, indent=2)]. *)
Record Env : Type := {
  docx2pdf : str -> World -> option str * World;
  render_pages : str -> World -> option (list Image) * World;
  page_texts : str -> World -> option (list str) * World;
  requests_post : payload -> World -> response * World;
  os_remove : str -> World -> World;
  image_to_base64 : Image -> str;
  json_dumps : value -> str;
  basename : str -> str
}.

Record state : Type := State { world : World; trace : list event }.

Variable env : Env.

Definition Py (A : Type) : Type := M state A.

(** One call of a collaborator, recorded in the trace. *)
Definition call {A : Type} (ev : event) (f : World -> A * World) : Py A :=
  fun st =>
    let (a, w) := f (world st) in
    (Ok a, {| world := w; trace := trace st ++ [ev] |}).

(** --- File Processing --- *)
Definition convert_docx_to_pdf (input_path : str) : Py (option str) :=
  call (EvConvert input_path) (docx2pdf env input_path).

Definition pdf_to_images (filepath : str) : Py (list Image) :=
  r <- call (EvRasterize filepath) (render_pages env filepath) ;;
  ret (match r with Some images => images | None => [] end).

Definition pdf_to_text (filepath : str) : Py str :=
  r <- call (EvReadText filepath) (page_texts env filepath) ;;
  ret (match r with Some pages => concat pages | None => [] end).

(** --- LLM Interaction --- *)
Definition text_payload (msgs : list message) : payload :=
  {| model := VISION_MODEL_NAME;
     messages := msgs;
     temperature := Some (FDec false 1 (-1));
     max_tokens := None |}.

Definition call_text_llm (msgs : list message) : Py (option str) :=
  r <- call (EvPost (text_payload msgs))
            (requests_post env (text_payload msgs)) ;;
  ret (match r with
       | Content c => Some c
       | RequestException _ => None
       end).

Definition ocr_instruction : str :=
  lit "Extract all text from this image of a medical report page. Do not translate anything (content will be primarily in Russian), do not output any extra text - only what you see from the image.".

Definition ocr_payload (image : Image) : payload :=
  {| model := VISION_MODEL_NAME;
     messages :=
       [ {| role := lit "user";
            body := Parts
              [ TextPart ocr_instruction;
                ImageUrl (lit "data:image/jpeg;base64,"
                          ++ image_to_base64 env image) ] |} ];
     temperature := None;
     max_tokens := Some 32000%N |}.

Definition ocr_failure_text (e : str) : str :=
  lit "Simulated OCR text due to API failure: " ++ e.

Definition ocr_image_with_vision_llm (image : Image) : Py str :=
  r <- call (EvPost (ocr_payload image))
            (requests_post env (ocr_payload image)) ;;
  ret (match r with
       | Content c => c
       | RequestException e => ocr_failure_text e
       end).

Definition extraction_system_prompt : str :=
  lit "You are a data extraction assistant. Extract patient information and organ descriptions from the provided medical report text. Output a single JSON object.".

Definition extraction_prompt_head : str :=
  nl ++ unlines
    [ lit "Please extract the patient information (patient_group, patient_id, age, gender) and the descriptions for each organ from the following Russian medical report text.";
      [];
      lit "The output must be a single, well-formed JSON object with this structure:";
      lit "{";
      lit "  " ++ q "patient_group" ++ lit ": " ++ q "..." ++ lit ",";
      lit "  " ++ q "patient_id" ++ lit ": " ++ q "..." ++ lit ",";
      lit "  " ++ q "age" ++ lit ": " ++ q "..." ++ lit ",";
      lit "  " ++ q "gender" ++ lit ": " ++ q "..." ++ lit ",";
      lit "  " ++ q "captions_ru" ++ lit ": {";
      lit "    " ++ q "organ_name_1" ++ lit ": "
        ++ q "description in Russian..." ++ lit ",";
      lit "    " ++ q "organ_name_2" ++ lit ": "
        ++ q "description in Russian..." ++ lit ",";
      lit "    ...";
      lit "    " ++ q "conclusion" ++ lit ": "
        ++ q "conclusion extracted from the text";
      lit "  }";
      lit "}";
      [];
      lit "Report Text:";
      lit "---" ].

Definition extraction_prompt (text : str) : str :=
  extraction_prompt_head ++ text ++ nl ++ lit "---" ++ nl.

Definition extraction_messages (text : str) : list message :=
  [ {| role := lit "system"; body := Text extraction_system_prompt |};
    {| role := lit "user";
       body := Parts [TextPart (extraction_prompt text)] |} ].

(** [parse_llm_json_output(response_text) if response_text else None] *)
Definition parse_if_any (response_text : option str) : value :=
  match response_text with
  | Some t => if nonempty t then parse_llm_json_output t else VNone
  | None => VNone
  end.

Definition extract_structured_ru_data (text : str) : Py value :=
  response_text <- call_text_llm (extraction_messages text) ;;
  ret (parse_if_any response_text).

Definition translation_system_prompt (target_language : str) : str :=
  lit "You are an expert medical translator. Translate the provided JSON values from Russian to "
  ++ target_language
  ++ lit ". Preserve the JSON structure and keys. Do not add any commentary.".

Definition translation_prompt (captions : value) (target_language : str)
  : str :=
  nl ++ lit "Translate the values in the following JSON object to "
  ++ target_language ++ lit "." ++ nl
  ++ lit "Return a single JSON object with the same keys." ++ nl
  ++ nl
  ++ lit "Input:" ++ nl
  ++ json_dumps env captions ++ nl.

Definition translation_messages (captions : value) (target_language : str)
  : list message :=
  [ {| role := lit "system";
       body := Text (translation_system_prompt target_language) |};
    {| role := lit "user";
       body := Text (translation_prompt captions target_language) |} ].

Definition translate_captions (captions : value) (target_language : str)
  : Py value :=
  response_text <- call_text_llm (translation_messages captions target_language) ;;
  ret (parse_if_any response_text).

(** --- Main Pipeline --- *)

(** The [for] loop over the page images, the same in both branches of [main]:
    a page whose text is truthy is appended, followed by a blank line. *)
Fixpoint ocr_pages (images : list Image) (full_ocr_text : str) : Py str :=
  match images with
  | [] => ret full_ocr_text
  | image :: rest =>
      ocr_text <- ocr_image_with_vision_llm image ;;
      ocr_pages rest
        (if nonempty ocr_text
         then full_ocr_text ++ ocr_text ++ nl ++ nl
         else full_ocr_text)
  end.

(** The texts the OCR calls on [images] return, page by page, and the state
    they leave: the loop of [ocr_pages] without its accumulator. *)
Fixpoint page_results (images : list Image) (st : state) : list str * state :=
  match images with
  | [] => ([], st)
  | image :: rest =>
      match ocr_image_with_vision_llm image st with
      | (Ok t, st') =>
          let (ts, st'') := page_results rest st' in (t :: ts, st'')
      | (Raise _, st') => ([], st')
      end
  end.

(** Page texts in page order, the empty ones left out, each followed by a
    blank line. *)
Definition blank_line_joined (texts : list str) : str :=
  concat (map (fun t => t ++ nl ++ nl) (filter nonempty texts)).

(** The [if args.force_ocr: ... else: ...] block of the loop body.  [None] is
    the [continue] taken when no page image could be produced. *)
Definition resolve_text (force_ocr : bool) (temp_pdf : str)
  : Py (option str) :=
  if force_ocr then
    images <- pdf_to_images temp_pdf ;;
    match images with
    | [] => ret None
    | _ :: _ =>
        full_ocr_text <- ocr_pages images [] ;;
        ret (Some full_ocr_text)
    end
  else
    full_ocr_text <- pdf_to_text temp_pdf ;;
    if (length full_ocr_text <? 50)%nat then
      images <- pdf_to_images temp_pdf ;;
      match images with
      | [] => ret None
      | _ :: _ =>
          full_ocr_text <- ocr_pages images full_ocr_text ;;
          ret (Some full_ocr_text)
      end
    else ret (Some full_ocr_text).

(** [not structured_data or "captions_ru" not in structured_data]: the
    membership test is evaluated only on a truthy value. *)
Definition captions_missing (structured_data : value) : result bool :=
  if negb (truthy structured_data) then Ok true
  else
    match py_in (lit "captions_ru") structured_data with
    | Ok b => Ok (negb b)
    | Raise e => Raise e
    end.

Definition NA : value := VStr (lit "N/A").

(** From the structured record to the final report: the rest of the loop
    body.  [None] is a [continue]. *)
Definition report_of (docx_file : str) (structured_data : value)
  : Py (option final_report) :=
  missing <- lift (captions_missing structured_data) ;;
  if (missing : bool) then ret None
  else
    captions_ru <- lift (py_get structured_data (lit "captions_ru") (VDict [])) ;;
    captions_en <- translate_captions captions_ru (lit "English") ;;
    if negb (truthy captions_en) then ret None
    else
      captions_kz <- translate_captions captions_ru (lit "Kazakh") ;;
      if negb (truthy captions_kz) then ret None
      else
        patient_group <- lift (py_get structured_data (lit "patient_group") NA) ;;
        patient_id <- lift (py_get structured_data (lit "patient_id") NA) ;;
        age <- lift (py_get structured_data (lit "age") NA) ;;
        gender <- lift (py_get structured_data (lit "gender") NA) ;;
        ret (Some {| source_file := basename env docx_file;
                     patient_group := patient_group;
                     patient_id := patient_id;
                     age := age;
                     gender := gender;
                     captions_ru := captions_ru;
                     captions_en := captions_en;
                     captions_kz := captions_kz |}).

(** The state after [os.remove(temp_pdf)]. *)
Definition removed (temp_pdf : str) (st : state) : state :=
  {| world := os_remove env temp_pdf (world st);
     trace := trace st ++ [EvRemove temp_pdf] |}.

(** The resolved text on its way to structured extraction: the temporary PDF
    is removed, and a text that is blank after [strip] ends the document. *)
Definition extract_and_report (docx_file temp_pdf full_ocr_text : str)
  : Py (option final_report) :=
  call (EvRemove temp_pdf) (fun w => (tt, os_remove env temp_pdf w)) ;;;
  if negb (nonempty (strip full_ocr_text)) then ret None
  else
    structured_data <- extract_structured_ru_data full_ocr_text ;;
    report_of docx_file structured_data.

(** The body of [for docx_file in docx_files]. *)
Definition process_document (force_ocr : bool) (docx_file : str)
  : Py (option final_report) :=
  temp_pdf <- convert_docx_to_pdf docx_file ;;
  match temp_pdf with
  | None => ret None
  | Some pdf =>
      if negb (nonempty pdf) then ret None
      else
        resolved <- resolve_text force_ocr pdf ;;
        match resolved with
        | None => ret None
        | Some full_ocr_text => extract_and_report docx_file pdf full_ocr_text
        end
  end.

Fixpoint batch_loop (force_ocr : bool) (docx_files : list str)
  (all_report_data : list final_report) : Py (list final_report) :=
  match docx_files with
  | [] => ret all_report_data
  | docx_file :: rest =>
      r <- process_document force_ocr docx_file ;;
      batch_loop force_ocr rest
        (match r with
         | Some final_report => all_report_data ++ [final_report]
         | None => all_report_data
         end)
  end.

(** [main] from the list of input documents on.  The result is the collection
    written to the output file, [None] when no file is written. *)
Definition main (force_ocr : bool) (docx_files : list str)
  : Py (option (list final_report)) :=
  match docx_files with
  | [] => ret None
  | _ :: _ =>
      all_report_data <- batch_loop force_ocr docx_files [] ;;
      match all_report_data with
      | [] => ret None
      | _ :: _ => ret (Some all_report_data)
      end
  end.

(** The batch loop: a run in which every document ends normally. *)
Inductive batch_run (force : bool)
  : list str -> state -> list (option final_report) -> state -> Prop :=
| batch_run_nil st : batch_run force [] st [] st
| batch_run_cons docx rest st r st1 rs st2 :
    process_document force docx st = (Ok r, st1) ->
    batch_run force rest st1 rs st2 ->
    batch_run force (docx :: rest) st (r :: rs) st2.

Definition successes (rs : list (option final_report)) : list final_report :=
  flat_map (fun r => match r with Some x => [x] | None => [] end) rs.

End Pipeline.

(** Every event [c] adds to the trace satisfies [P]. *)
Definition emits_only (World A : Type) (P : event -> bool)
  (c : M (state World) A) : Prop :=
  forall st r st',
    c st = (r, st') ->
    exists evs, trace st' = trace st ++ evs /\ forallb P evs = true.

(** Kinds of calls. *)
Definition is_convert (e : event) : bool :=
  match e with EvConvert _ => true | _ => false end.

Definition is_read_text (e : event) : bool :=
  match e with EvReadText _ => true | _ => false end.

Definition is_remove (e : event) : bool :=
  match e with EvRemove _ => true | _ => false end.

(** [l1] is [l2] with some of its elements left out. *)
Inductive subsequence (A : Type) : list A -> list A -> Prop :=
| subsequence_nil l : subsequence [] l
| subsequence_skip x l1 l2 : subsequence l1 l2 -> subsequence l1 (x :: l2)
| subsequence_take x l1 l2 :
    subsequence l1 l2 -> subsequence (x :: l1) (x :: l2).

(** The two translation requests of a captions value. *)
Definition english (World Image : Type) (env : Env World Image) (c : value)
  : event :=
  EvPost (text_payload (translation_messages env c (lit "English"))).

Definition kazakh (World Image : Type) (env : Env World Image) (c : value)
  : event :=
  EvPost (text_payload (translation_messages env c (lit "Kazakh"))).

(** A report both of whose translations passed the test of [main]. *)
Definition translated (rep : final_report) : Prop :=
  truthy (captions_en rep) = true /\ truthy (captions_kz rep) = true.

(** The character [c] does not occur in [old]. *)
Definition absent (c : char) (old : str) : Prop :=
  forallb (fun y => negb (y =? c)%N) old = true.

(** The result of a scanner whose input got the character [c] appended, when
    the scanner leaves that character unread. *)
Definition extend (A : Type) (c : char) (o : option (A * str))
  : option (A * str) :=
  match o with
  | Some (v, r) => Some (v, r ++ [c])
  | None => None
  end.

(** ** A scripted environment

    Concrete collaborators to run the pipeline on: a table of input documents
    in place of the file system and the converter, and a queue of responses in
    place of the inference backend (each request takes the next one; an empty
    queue refuses the connection). *)
Module Scenario.

Record document : Type := Document {
  doc_name : str;
  convertible : bool;
  text_layer : list str;
  page_images : list str
}.

Definition files := list document.

Fixpoint find_document (fs : files) (path : str) : option document :=
  match fs with
  | [] => None
  | d :: fs' =>
      if startswith path (doc_name d) then Some d else find_document fs' path
  end.

(** A serializer that agrees with [json.dumps(_, ensure_ascii=False,
    indent=2)] on values without floats; a float is written as its decimal
    digits and exponent. *)
Definition decimal (n : N) : str := lit (NilEmpty.string_of_uint (N.to_uint n)).

Definition decimal_Z (z : Z) : str :=
  if (z <? 0)%Z then lit "-" ++ decimal (Z.abs_N z) else decimal (Z.abs_N z).

Definition hex_digit (n : N) : char :=
  if (n <? 10)%N then (48 + n)%N else (87 + n)%N.

Definition escape_char (c : char) : str :=
  if (c =? quote)%N then [backslash; quote]
  else if (c =? backslash)%N then [backslash; backslash]
  else if (c =? 8)%N then backslash :: lit "b"
  else if (c =? 12)%N then backslash :: lit "f"
  else if (c =? 10)%N then backslash :: lit "n"
  else if (c =? 13)%N then backslash :: lit "r"
  else if (c =? 9)%N then backslash :: lit "t"
  else if (c <? 32)%N
  then backslash :: lit "u00" ++ [hex_digit (c / 16); hex_digit (c mod 16)]
  else [c].

Definition encode_string (s : str) : str := dq ++ flat_map escape_char s ++ dq.

Fixpoint indentation (level : nat) : str :=
  match level with
  | O => []
  | S k => lit "  " ++ indentation k
  end.

Definition dumps_float (f : pyfloat) : str :=
  match f with
  | FNaN => lit "NaN"
  | FInf false => lit "Infinity"
  | FInf true => lit "-Infinity"
  | FDec neg m e =>
      (if neg then lit "-" else []) ++ decimal m ++ lit "e" ++ decimal_Z e
  end.

Fixpoint dumps (level : nat) (v : value) : str :=
  match v with
  | VNone => lit "null"
  | VBool true => lit "true"
  | VBool false => lit "false"
  | VInt z => decimal_Z z
  | VFloat f => dumps_float f
  | VStr s => encode_string s
  | VList [] => lit "[]"
  | VList l =>
      lit "[" ++ nl
      ++ (fix items (l : list value) : str :=
            match l with
            | [] => []
            | [x] => indentation (S level) ++ dumps (S level) x
            | x :: l' =>
                indentation (S level) ++ dumps (S level) x
                ++ lit "," ++ nl ++ items l'
            end) l
      ++ nl ++ indentation level ++ lit "]"
  | VDict [] => lit "{}"
  | VDict d =>
      lit "{" ++ nl
      ++ (fix items (d : list (str * value)) : str :=
            match d with
            | [] => []
            | [(k, x)] =>
                indentation (S level) ++ encode_string k ++ lit ": "
                ++ dumps (S level) x
            | (k, x) :: d' =>
                indentation (S level) ++ encode_string k ++ lit ": "
                ++ dumps (S level) x ++ lit "," ++ nl ++ items d'
            end) d
      ++ nl ++ indentation level ++ lit "}"
  end.

(** The backend: the queue of responses still to be given. *)
Definition backend := list response.

Definition scripted (fs : files) : Env backend str :=
  {| docx2pdf := fun path w =>
       (match find_document fs path with
        | Some d => if convertible d then Some (path ++ lit ".pdf") else None
        | None => None
        end, w);
     render_pages := fun pdf w =>
       (match find_document fs pdf with
        | Some d => Some (page_images d)
        | None => None
        end, w);
     page_texts := fun pdf w =>
       (match find_document fs pdf with
        | Some d => Some (text_layer d)
        | None => None
        end, w);
     requests_post := fun _ w =>
       match w with
       | r :: w' => (r, w')
       | [] => (RequestException (lit "connection refused"), [])
       end;
     os_remove := fun _ w => w;
     image_to_base64 := fun image => image;
     json_dumps := dumps 0;
     basename := fun path => path |}.

Definition start (responses : backend) : state backend :=
  {| world := responses; trace := [] |}.

(** JSON text of the scenarios. *)
Definition obj (members : list (string * str)) : str :=
  lit "{"
  ++ concat (map (fun '(k, v) => q k ++ lit ": " ++ v ++ lit ", ")
                 (removelast members))
  ++ match last (map Some members) None with
     | Some (k, v) => q k ++ lit ": " ++ v
     | None => []
     end
  ++ lit "}".

(** The documents: two typed reports with a text layer of 56 characters, one
    the converter rejects, a scan of two pages without a text layer, and a
    one-page scan whose text layer holds only a page label. *)
Definition long_text : str :=
  lit "Patient 17, group A. Liver: normal size, smooth contour.".

Definition library : files :=
  [ Document (lit "a.docx") true [long_text] [lit "page-1"];
    Document (lit "broken.docx") false [long_text] [lit "page-1"];
    Document (lit "c.docx") true [long_text] [lit "page-1"];
    Document (lit "scan.docx") true [] [lit "page-1"; lit "page-2"];
    Document (lit "stamp.docx") true [lit "Page 1"] [lit "page-1"] ].

(** Well-formed answers of the model. *)
Definition ru_text : str :=
  obj [("liver", q "norma"); ("conclusion", q "bez patologii")]%string.
Definition en_text : str :=
  obj [("liver", q "normal"); ("conclusion", q "no pathology")]%string.
Definition kz_text : str :=
  obj [("liver", q "qalypty"); ("conclusion", q "patologiya zhoq")]%string.
Definition record_text : str :=
  obj [("patient_group", q "A"); ("patient_id", q "17"); ("age", q "54");
       ("gender", q "F"); ("captions_ru", ru_text)]%string.

Definition good_answers : backend :=
  [Content record_text; Content en_text; Content kz_text].

Definition captions (liver conclusion : string) : value :=
  VDict [(lit "liver", VStr (lit liver));
         (lit "conclusion", VStr (lit conclusion))].

Definition ru : value := captions "norma" "bez patologii".
Definition en : value := captions "normal" "no pathology".
Definition kz : value := captions "qalypty" "patologiya zhoq".

(** The report the well-formed answers give for the document [name]. *)
Definition good_report (name : string) : final_report :=
  {| source_file := lit name;
     patient_group := VStr (lit "A");
     patient_id := VStr (lit "17");
     age := VStr (lit "54");
     gender := VStr (lit "F");
     captions_ru := ru;
     captions_en := en;
     captions_kz := kz |}.

(** An answer with a string value that contains the word the handler
    removes. *)
Definition format_text : str := obj [("format", q "json")]%string.

Definition fenced (payload : str) : str :=
  lit "```json" ++ nl ++ payload ++ nl ++ lit "```".

(** A structured record whose captions mapping is present and empty, and a
    translation that answers with a key of its own. *)
Definition empty_captions_text : str :=
  obj [("patient_id", q "17"); ("captions_ru", lit "{}")]%string.
Definition note_text : str := obj [("note", q "nothing to translate")]%string.
Definition note : value :=
  VDict [(lit "note", VStr (lit "nothing to translate"))].


(** The environment of the runs, and the states they start from and pass
    through. *)
Definition env0 : Env backend str := scripted library.

(** [a.docx], with the well-formed answers. *)
Definition a_start : state backend := start good_answers.
Definition a_converted : state backend :=
  snd (convert_docx_to_pdf env0 (lit "a.docx") a_start).
Definition a_read : state backend :=
  snd (pdf_to_text env0 (lit "a.docx.pdf") a_converted).

(** [scan.docx] without forced OCR, with an answer for each page. *)
Definition page_one : str := lit "Liver: normal size.".
Definition page_two : str := lit "Conclusion: no pathology.".

Definition scan_start : state backend :=
  start [Content page_one; Content page_two].
Definition scan_read : state backend :=
  snd (pdf_to_text env0 (lit "scan.docx.pdf") scan_start).
Definition scan_rasterized : state backend :=
  snd (pdf_to_images env0 (lit "scan.docx.pdf") scan_read).

(** [stamp.docx], with an answer for its page. *)
Definition stamp_start : state backend := start [Content page_one].
Definition stamp_converted : state backend :=
  snd (convert_docx_to_pdf env0 (lit "stamp.docx") stamp_start).
Definition stamp_read : state backend :=
  snd (pdf_to_text env0 (lit "stamp.docx.pdf") stamp_converted).
Definition stamp_rasterized : state backend :=
  snd (pdf_to_images env0 (lit "stamp.docx.pdf") stamp_read).

(** [stamp.docx], with an empty OCR answer and then the well-formed
    answers. *)
Definition mute_start : state backend := start (Content [] :: good_answers).
Definition mute_converted : state backend :=
  snd (convert_docx_to_pdf env0 (lit "stamp.docx") mute_start).
Definition mute_read : state backend :=
  snd (pdf_to_text env0 (lit "stamp.docx.pdf") mute_converted).
Definition mute_rasterized : state backend :=
  snd (pdf_to_images env0 (lit "stamp.docx.pdf") mute_read).

(** [scan.docx] under forced OCR, with an empty answer for each page. *)
Definition blank_start : state backend := start [Content []; Content []].
Definition blank_converted : state backend :=
  snd (convert_docx_to_pdf env0 (lit "scan.docx") blank_start).
Definition blank_rasterized : state backend :=
  snd (pdf_to_images env0 (lit "scan.docx.pdf") blank_converted).

(** Two OCR requests that time out, then the well-formed answers; and the
    text the OCR loop makes of the two failures. *)
Definition outage : backend :=
  RequestException (lit "timeout") :: RequestException (lit "timeout")
  :: good_answers.

Definition outage_text : str :=
  lit "Simulated OCR text due to API failure: timeout" ++ nl ++ nl
  ++ lit "Simulated OCR text due to API failure: timeout" ++ nl ++ nl.

(** A structured record without the captions key. *)
Definition no_captions_text : str := obj [("patient_id", q "17")]%string.

(** A document that converts to a PDF without pages. *)
Definition hollow : Env backend str :=
  scripted [Document (lit "hollow.docx") true [] []].

(** A well-formed answer between blank lines. *)
Definition padded (payload : str) : str :=
  nl ++ lit "  " ++ payload ++ nl ++ nl.

(** An interpreter that lets the decoder enter two containers, with the
    lowest limit on the digits of an integer that can be set, and a standard
    output that takes every text. *)
Definition shallow : interpreter :=
  {| recursion_budget := 2;
     int_max_str_digits := Some 640;
     print_failure := fun _ => None |}.

End Scenario.

(** * Properties *)

(** ** The monad and the trace *)
Section MonadFacts.

Context {S A B : Type}.

Lemma bind_ok (c : M S A) (k : A -> M S B) st a st' :
  c st = (Ok a, st') -> bind c k st = k a st'.
Proof. unfold bind; intros ->; reflexivity. Qed.

Lemma bind_raise (c : M S A) (k : A -> M S B) st e st' :
  c st = (Raise e, st') -> bind c k st = (Raise e, st').
Proof. unfold bind; intros ->; reflexivity. Qed.

Lemma bind_ret (a : A) (k : A -> M S B) st : bind (ret a) k st = k a st.
Proof. reflexivity. Qed.

End MonadFacts.

Section TraceFacts.

Context {World Image : Type} (env : Env World Image).

Lemma emits_ret {A} P (a : A) : emits_only (World := World) P (ret a).
Proof.
  intros st r st' H; inversion H; subst.
  exists []; split; [now rewrite app_nil_r | reflexivity].
Qed.

Lemma emits_lift {A} P (r : result A) :
  emits_only (World := World) P (lift r).
Proof.
  intros st r' st' H; inversion H; subst.
  exists []; split; [now rewrite app_nil_r | reflexivity].
Qed.

Lemma emits_call {A} P ev (f : World -> A * World) :
  P ev = true -> emits_only P (call ev f).
Proof.
  intros HP st r st' H. unfold call in H.
  destruct (f (world st)) as [a w]; inversion H; subst; cbn.
  exists [ev]; split; [reflexivity | cbn; now rewrite HP].
Qed.

Lemma emits_bind {A B} P (c : M (state World) A) (k : A -> M (state World) B) :
  emits_only P c -> (forall a, emits_only P (k a)) -> emits_only P (bind c k).
Proof.
  intros Hc Hk st r st' H. unfold bind in H.
  destruct (c st) as [[a | e] st1] eqn:E.
  - destruct (Hc _ _ _ E) as (evs1 & T1 & F1).
    destruct (Hk a _ _ _ H) as (evs2 & T2 & F2).
    exists (evs1 ++ evs2); split.
    + now rewrite T2, T1, app_assoc.
    + now rewrite forallb_app, F1, F2.
  - inversion H; subst. exact (Hc _ _ _ E).
Qed.

End TraceFacts.

(** ** The OCR loop *)
Section OcrFacts.

Context {World Image : Type} (env : Env World Image).

Lemma call_eq {A} ev (f : World -> A * World) (st : state World) :
  call ev f st =
  (Ok (fst (f (world st))),
   {| world := snd (f (world st)); trace := trace st ++ [ev] |}).
Proof. unfold call; destruct (f (world st)); reflexivity. Qed.

(** The OCR adapter returns a text on every backend outcome. *)
Lemma ocr_image_returns image (st : state World) :
  exists t st',
    ocr_image_with_vision_llm env image st = (Ok t, st')
    /\ trace st' = trace st ++ [EvPost (ocr_payload env image)].
Proof.
  unfold ocr_image_with_vision_llm, bind. rewrite call_eq.
  eexists; eexists; split; reflexivity.
Qed.

Lemma ocr_pages_results images : forall acc (st : state World),
  ocr_pages env images acc st =
  (Ok (acc ++ blank_line_joined (fst (page_results env images st))),
   snd (page_results env images st)).
Proof.
  induction images as [| image rest IH]; intros acc st; cbn [ocr_pages page_results].
  - cbn. now rewrite app_nil_r.
  - destruct (ocr_image_returns image st) as (t & st1 & E & _).
    rewrite (bind_ok _ _ _ E), E, IH.
    destruct (page_results env rest st1) as [ts st2]; cbn [fst snd].
    unfold blank_line_joined; cbn [filter].
    destruct (nonempty t); cbn [map concat]; [| reflexivity].
    now rewrite <- !app_assoc.
Qed.

Lemma page_results_trace images : forall st : state World,
  trace (snd (page_results env images st)) =
  trace st ++ map (fun image => EvPost (ocr_payload env image)) images.
Proof.
  induction images as [| image rest IH]; intros st; cbn [page_results map].
  - cbn. now rewrite app_nil_r.
  - destruct (ocr_image_returns image st) as (t & st1 & E & T).
    rewrite E. specialize (IH st1).
    destruct (page_results env rest st1) as [ts st2]; cbn [fst snd] in *.
    now rewrite IH, T, <- app_assoc.
Qed.

Lemma page_results_length images : forall st : state World,
  length (fst (page_results env images st)) = length images.
Proof.
  induction images as [| image rest IH]; intros st; cbn [page_results].
  - reflexivity.
  - destruct (ocr_image_returns image st) as (t & st1 & E & _).
    rewrite E. specialize (IH st1).
    destruct (page_results env rest st1) as [ts st2]; cbn [fst snd length] in *.
    now rewrite IH.
Qed.

(** When every page text is empty the loop leaves its accumulator as it
    was. *)
Lemma blank_line_joined_all_empty texts :
  Forall (fun t => t = []) texts -> blank_line_joined texts = [].
Proof.
  unfold blank_line_joined.
  induction 1 as [| t ts Ht _ IH]; [reflexivity |].
  subst t; cbn [filter nonempty]. exact IH.
Qed.

End OcrFacts.

(** ** The text source: direct extraction or OCR *)
Section ResolverFacts.

Context {World Image : Type} (env : Env World Image).

Implicit Types st : state World.

(** After a successful conversion the loop body resolves the text and, unless
    no page image could be produced, hands it on. *)
Lemma process_document_converted force docx st pdf st1 :
  convert_docx_to_pdf env docx st = (Ok (Some pdf), st1) ->
  nonempty pdf = true ->
  process_document env force docx st =
  (resolved <- resolve_text env force pdf ;;
   match resolved with
   | None => ret None
   | Some full_ocr_text => extract_and_report env docx pdf full_ocr_text
   end) st1.
Proof.
  intros Hc Hne. unfold process_document.
  rewrite (bind_ok _ _ _ Hc), Hne. reflexivity.
Qed.

Lemma resolve_text_direct pdf st direct st1 :
  pdf_to_text env pdf st = (Ok direct, st1) ->
  50 <= length direct ->
  resolve_text env false pdf st = (Ok (Some direct), st1).
Proof.
  intros Ht Hlen. unfold resolve_text.
  rewrite (bind_ok _ _ _ Ht).
  destruct (Nat.ltb_spec (length direct) 50); [lia | reflexivity].
Qed.

Lemma resolve_text_fallback pdf st direct st1 images st2 :
  pdf_to_text env pdf st = (Ok direct, st1) ->
  length direct < 50 ->
  pdf_to_images env pdf st1 = (Ok images, st2) ->
  resolve_text env false pdf st =
  (Ok (match images with
       | [] => None
       | _ :: _ =>
           Some (direct ++ blank_line_joined (fst (page_results env images st2)))
       end),
   snd (page_results env images st2)).
Proof.
  intros Ht Hlen Hi. unfold resolve_text.
  rewrite (bind_ok _ _ _ Ht).
  destruct (Nat.ltb_spec (length direct) 50); [| lia].
  rewrite (bind_ok _ _ _ Hi).
  destruct images as [| image rest]; [reflexivity |].
  unfold bind. now rewrite ocr_pages_results.
Qed.

Lemma resolve_text_forced pdf st images st1 :
  pdf_to_images env pdf st = (Ok images, st1) ->
  resolve_text env true pdf st =
  (Ok (match images with
       | [] => None
       | _ :: _ => Some (blank_line_joined (fst (page_results env images st1)))
       end),
   snd (page_results env images st1)).
Proof.
  intros Hi. unfold resolve_text.
  rewrite (bind_ok _ _ _ Hi).
  destruct images as [| image rest]; [reflexivity |].
  unfold bind. now rewrite ocr_pages_results.
Qed.

(** What [extract_and_report] does with a text that is not blank. *)
Lemma extract_and_report_text docx pdf text st :
  strip text <> [] ->
  extract_and_report env docx pdf text st =
  (structured_data <- extract_structured_ru_data env text ;;
   report_of env docx structured_data) (removed env pdf st).
Proof.
  intros Hs. unfold extract_and_report.
  unfold bind at 1. rewrite call_eq. cbn [fst snd].
  destruct (strip text); [congruence | reflexivity].
Qed.

Lemma extract_and_report_blank docx pdf text st :
  strip text = [] ->
  extract_and_report env docx pdf text st = (Ok None, removed env pdf st).
Proof.
  intros Hs. unfold extract_and_report.
  unfold bind at 1. rewrite call_eq. cbn [fst snd].
  rewrite Hs. reflexivity.
Qed.

Lemma call_text_llm_no_ocr msgs :
  is_vision_request (text_payload msgs) = false ->
  emits_only no_ocr (call_text_llm env msgs).
Proof.
  intros H. unfold call_text_llm.
  apply emits_bind; [| intros r; apply emits_ret].
  apply emits_call. unfold no_ocr, is_rasterize, is_ocr_call.
  rewrite H. reflexivity.
Qed.

Lemma translate_captions_no_ocr captions lang :
  emits_only no_ocr (translate_captions env captions lang).
Proof.
  unfold translate_captions.
  apply emits_bind; [| intros r; apply emits_ret].
  apply call_text_llm_no_ocr. reflexivity.
Qed.

Lemma report_of_no_ocr docx structured_data :
  emits_only no_ocr (report_of env docx structured_data).
Proof.
  unfold report_of.
  apply emits_bind; [apply emits_lift | intros missing].
  destruct missing; [apply emits_ret |].
  apply emits_bind; [apply emits_lift | intros c].
  apply emits_bind; [apply translate_captions_no_ocr | intros en].
  destruct (negb (truthy en)); [apply emits_ret |].
  apply emits_bind; [apply translate_captions_no_ocr | intros kz].
  destruct (negb (truthy kz)); [apply emits_ret |].
  repeat (apply emits_bind; [apply emits_lift | intros ?]).
  apply emits_ret.
Qed.

Lemma extract_and_report_no_ocr docx pdf text :
  emits_only no_ocr (extract_and_report env docx pdf text).
Proof.
  unfold extract_and_report.
  apply emits_bind; [apply emits_call; reflexivity | intros _].
  destruct (negb (nonempty (strip text))); [apply emits_ret |].
  apply emits_bind; [| intros sd; apply report_of_no_ocr].
  unfold extract_structured_ru_data.
  apply emits_bind; [| intros r; apply emits_ret].
  apply call_text_llm_no_ocr. reflexivity.
Qed.

Lemma convert_trace docx st r st1 :
  convert_docx_to_pdf env docx st = (Ok r, st1) ->
  trace st1 = trace st ++ [EvConvert docx].
Proof.
  unfold convert_docx_to_pdf. rewrite call_eq. intros H; inversion H; reflexivity.
Qed.

Lemma pdf_to_text_trace pdf st text st1 :
  pdf_to_text env pdf st = (Ok text, st1) ->
  trace st1 = trace st ++ [EvReadText pdf].
Proof.
  unfold pdf_to_text, bind. rewrite call_eq. intros H; inversion H; reflexivity.
Qed.

(** C3.  Without forced OCR, a document whose directly extracted text has at
    least 50 characters is processed without OCR: the resolved text is the
    direct text, it is this text that goes on to structured extraction, and
    among the calls made for the document none rasterizes a page and none
    sends a page image to the backend. *)
Theorem usable_direct_text_skips_ocr docx st pdf st1 direct st2 :
  convert_docx_to_pdf env docx st = (Ok (Some pdf), st1) ->
  nonempty pdf = true ->
  pdf_to_text env pdf st1 = (Ok direct, st2) ->
  50 <= length direct ->
  resolve_text env false pdf st1 = (Ok (Some direct), st2)
  /\ process_document env false docx st =
     extract_and_report env docx pdf direct st2
  /\ forall r st',
       process_document env false docx st = (r, st') ->
       exists evs,
         trace st' = trace st ++ evs /\ forallb no_ocr evs = true.
Proof.
  intros Hc Hne Ht Hlen.
  pose proof (resolve_text_direct _ _ Ht Hlen) as Hr.
  assert (Hp : process_document env false docx st =
               extract_and_report env docx pdf direct st2).
  { rewrite (process_document_converted _ _ _ Hc Hne).
    now rewrite (bind_ok _ _ _ Hr). }
  repeat split; [exact Hr | exact Hp |].
  intros r st' H. rewrite Hp in H.
  destruct (extract_and_report_no_ocr _ _ _ _ H) as (evs & T & F).
  exists (EvConvert docx :: EvReadText pdf :: evs); split.
  - rewrite T, (pdf_to_text_trace _ _ Ht), (convert_trace _ _ Hc).
    now rewrite <- !app_assoc.
  - cbn [forallb]. now rewrite F.
Qed.

(** C4, as the code has it.  Without forced OCR, when the directly extracted
    text has fewer than 50 characters, one OCR request is sent for every
    rasterized page, in page order, and the resolved text is the direct text
    followed by the page texts in page order, each followed by a blank line
    (a page whose text is empty is left out). *)
Theorem fallback_ocr_every_page_in_order pdf st direct st1 images st2 :
  pdf_to_text env pdf st = (Ok direct, st1) ->
  length direct < 50 ->
  pdf_to_images env pdf st1 = (Ok images, st2) ->
  images <> [] ->
  let texts := fst (page_results env images st2) in
  let st3 := snd (page_results env images st2) in
  resolve_text env false pdf st =
    (Ok (Some (direct ++ blank_line_joined texts)), st3)
  /\ length texts = length images
  /\ trace st3 =
     trace st2 ++ map (fun image => EvPost (ocr_payload env image)) images.
Proof.
  intros Ht Hlen Hi Hne texts st3.
  repeat split.
  - rewrite (resolve_text_fallback _ _ Ht Hlen Hi).
    destruct images; [congruence | reflexivity].
  - apply page_results_length.
  - apply page_results_trace.
Qed.

(** C10.  In the fallback path the short direct text is kept: the resolved
    text is the direct text followed by the OCR page texts, and this is the
    text that structured extraction receives. *)
Theorem fallback_keeps_direct_text docx st pdf st1 direct st2 images st3 :
  convert_docx_to_pdf env docx st = (Ok (Some pdf), st1) ->
  nonempty pdf = true ->
  pdf_to_text env pdf st1 = (Ok direct, st2) ->
  length direct < 50 ->
  pdf_to_images env pdf st2 = (Ok images, st3) ->
  images <> [] ->
  let ocr_part := blank_line_joined (fst (page_results env images st3)) in
  let st4 := snd (page_results env images st3) in
  resolve_text env false pdf st1 = (Ok (Some (direct ++ ocr_part)), st4)
  /\ process_document env false docx st =
     extract_and_report env docx pdf (direct ++ ocr_part) st4
  /\ (strip (direct ++ ocr_part) <> [] ->
      process_document env false docx st =
      (structured_data <- extract_structured_ru_data env (direct ++ ocr_part) ;;
       report_of env docx structured_data) (removed env pdf st4)).
Proof.
  intros Hc Hne Ht Hlen Hi Himg ocr_part st4.
  assert (Hr : resolve_text env false pdf st1 =
               (Ok (Some (direct ++ ocr_part)), st4)).
  { rewrite (resolve_text_fallback _ _ Ht Hlen Hi).
    destruct images; [congruence | reflexivity]. }
  assert (Hp : process_document env false docx st =
               extract_and_report env docx pdf (direct ++ ocr_part) st4).
  { rewrite (process_document_converted _ _ _ Hc Hne).
    now rewrite (bind_ok _ _ _ Hr). }
  repeat split; [exact Hr | exact Hp |].
  intros Hs. rewrite Hp. now apply extract_and_report_text.
Qed.

End ResolverFacts.

(** ** Skipping a document *)
Section SkipFacts.

Context {World Image : Type} (env : Env World Image).

Implicit Types st : state World.

(** On the OCR path, when every page text is empty, the resolved text is what
    the direct extraction gave (nothing at all under forced OCR). *)
Lemma resolve_text_empty_pages (force : bool) pdf st (direct : str) st1
  images st2 :
  (if force then direct = [] /\ st1 = st
   else pdf_to_text env pdf st = (Ok direct, st1) /\ length direct < 50) ->
  pdf_to_images env pdf st1 = (Ok images, st2) ->
  Forall (fun t => t = []) (fst (page_results env images st2)) ->
  resolve_text env force pdf st =
  (Ok (match images with [] => None | _ :: _ => Some direct end),
   snd (page_results env images st2)).
Proof.
  intros Hpath Hi Hempty.
  destruct force.
  - destruct Hpath as [-> ->].
    rewrite (resolve_text_forced env _ _ Hi).
    now rewrite (blank_line_joined_all_empty Hempty).
  - destruct Hpath as [Ht Hlen].
    rewrite (resolve_text_fallback env _ _ Ht Hlen Hi).
    now rewrite (blank_line_joined_all_empty Hempty), app_nil_r.
Qed.

(** C9, as the code has it.  On the OCR path a document without page images
    is skipped at once, in both paths.  When every OCR call yields empty text
    the document is skipped if the direct text is blank after [strip] (under
    forced OCR there is no direct text, so it always is); a short direct text
    that is not blank goes on to structured extraction by itself. *)
Theorem ocr_path_without_text (force : bool) docx st pdf st1 (direct : str)
  st2 images st3 :
  convert_docx_to_pdf env docx st = (Ok (Some pdf), st1) ->
  nonempty pdf = true ->
  (if force then direct = [] /\ st2 = st1
   else pdf_to_text env pdf st1 = (Ok direct, st2) /\ length direct < 50) ->
  pdf_to_images env pdf st2 = (Ok images, st3) ->
  Forall (fun t => t = []) (fst (page_results env images st3)) ->
  let st4 := snd (page_results env images st3) in
  (images = [] -> process_document env force docx st = (Ok None, st3))
  /\ (images <> [] -> strip direct = [] ->
      process_document env force docx st = (Ok None, removed env pdf st4))
  /\ (images <> [] -> strip direct <> [] ->
      process_document env force docx st =
      (structured_data <- extract_structured_ru_data env direct ;;
       report_of env docx structured_data) (removed env pdf st4)).
Proof.
  intros Hc Hne Hpath Hi Hempty st4.
  pose proof (@resolve_text_empty_pages force pdf st1 direct st2 images st3
                Hpath Hi Hempty) as Hr.
  rewrite (process_document_converted env _ _ _ Hc Hne), (bind_ok _ _ _ Hr).
  subst st4. repeat split.
  - intros ->. reflexivity.
  - intros Himg Hs. destruct images; [congruence |].
    now apply extract_and_report_blank.
  - intros Himg Hs. destruct images; [congruence |].
    now apply extract_and_report_text.
Qed.

(** A record that is falsy, or a dictionary without the key, is reported as
    missing its captions; a dictionary with the key is not, whatever the
    value under the key. *)
Lemma captions_missing_cases structured_data :
  (truthy structured_data = false -> captions_missing structured_data = Ok true)
  /\ (forall d,
        structured_data = VDict d ->
        captions_missing structured_data =
        Ok (match dict_lookup d (lit "captions_ru") with
            | Some _ => false
            | None => true
            end)).
Proof.
  split.
  - intros H. unfold captions_missing. now rewrite H.
  - intros d ->. unfold captions_missing.
    destruct d as [| p d]; [reflexivity |].
    cbn [truthy negb py_in].
    now destruct (dict_lookup (p :: d) (lit "captions_ru")).
Qed.

(** C5, as the code has it.  A document whose structured record is falsy
    (no response, a response that does not parse, an empty object) or is an
    object without the [captions_ru] key is skipped with no further request.
    Presence of the key is all that is checked: with the key present the
    captions go on to translation, an empty mapping included. *)
Theorem missing_captions_skip_document docx pdf text st structured_data st' :
  strip text <> [] ->
  extract_structured_ru_data env text (removed env pdf st) =
    (Ok structured_data, st') ->
  (truthy structured_data = false
   \/ exists d, structured_data = VDict d
                /\ dict_lookup d (lit "captions_ru") = None) ->
  extract_and_report env docx pdf text st = (Ok None, st')
  /\ forall d c,
       dict_lookup d (lit "captions_ru") = Some c ->
       captions_missing (VDict d) = Ok false.
Proof.
  intros Hs He Hmiss. split.
  - rewrite extract_and_report_text by exact Hs.
    rewrite (bind_ok _ _ _ He).
    assert (Hm : captions_missing structured_data = Ok true).
    { destruct (captions_missing_cases structured_data) as [Hf Hd].
      destruct Hmiss as [Hfalsy | (d & -> & Hl)]; [now apply Hf |].
      rewrite (Hd d eq_refl), Hl. reflexivity. }
    unfold report_of, bind, lift. now rewrite Hm.
  - intros d c Hl.
    destruct (captions_missing_cases (VDict d)) as [_ Hd].
    rewrite (Hd d eq_refl), Hl. reflexivity.
Qed.


(** C2.  When the OCR request fails the adapter returns its placeholder
    instead of raising, and the loop of [main], which tests the text for
    emptiness only, appends the placeholder to the resolved text: the page
    is not treated as giving no text. *)
Theorem failed_ocr_page_contributes_placeholder image acc st e w :
  requests_post env (ocr_payload env image) (world st) =
    (RequestException e, w) ->
  let st' :=
    {| world := w; trace := trace st ++ [EvPost (ocr_payload env image)] |} in
  ocr_image_with_vision_llm env image st = (Ok (ocr_failure_text e), st')
  /\ ocr_pages env [image] acc st =
     (Ok (acc ++ ocr_failure_text e ++ nl ++ nl), st').
Proof.
  intros E st'.
  assert (Ho : ocr_image_with_vision_llm env image st =
               (Ok (ocr_failure_text e), st')).
  { unfold ocr_image_with_vision_llm, bind. rewrite call_eq, E. reflexivity. }
  split; [exact Ho |].
  cbn [ocr_pages]. rewrite (bind_ok _ _ _ Ho). reflexivity.
Qed.

(** One report for every document that succeeded, in input order, and nothing
    for a skipped one. *)
Lemma batch_loop_collects force docs st rs st' :
  batch_run env force docs st rs st' ->
  forall acc,
    batch_loop env force docs acc st = (Ok (acc ++ successes rs), st').
Proof.
  induction 1 as [st | docx rest st r st1 rs st2 Hd _ IH]; intros acc.
  - cbn. now rewrite app_nil_r.
  - cbn [batch_loop]. rewrite (bind_ok _ _ _ Hd), IH.
    destruct r; cbn [successes flat_map]; [| reflexivity].
    now rewrite <- app_assoc.
Qed.

(** What [main] writes after such a run: the reports of the documents that
    succeeded, in input order, or nothing when there is none. *)
Lemma main_collects force docs st rs st' :
  batch_run env force docs st rs st' ->
  main env force docs st =
  (Ok (match docs, successes rs with
       | [], _ | _, [] => None
       | _ :: _, _ :: _ => Some (successes rs)
       end), st').
Proof.
  intros H. unfold main.
  destruct docs as [| docx rest].
  - inversion H; subst. reflexivity.
  - rewrite (bind_ok _ _ _ (batch_loop_collects H [])). cbn [app].
    destruct (successes rs); reflexivity.
Qed.

(** An exception in one document ends the whole loop. *)
Lemma batch_loop_raises force docx rest acc st e st' :
  process_document env force docx st = (Raise e, st') ->
  batch_loop env force (docx :: rest) acc st = (Raise e, st').
Proof. intros H. cbn [batch_loop]. now rewrite (bind_raise _ _ _ H). Qed.

End SkipFacts.

(** ** The fuel of the decoder

    More fuel never changes what the descent reads, every call of the descent
    consumes input, and the fuel [json_loads] starts with is enough for
    whatever the descent can read at all: a [None] of [json_loads] is a
    [JSONDecodeError], never a lack of fuel. *)
Section DecoderFuel.

Ltac step_with IHs IHo IHa :=
  match goal with
  | |- _ = Some _ -> _ = Some _ =>
      first [ exact (IHs _ _) | exact (IHo _ _ _) | exact (IHa _ _ _)
            | intros H; exact H | intros H; discriminate H ]
  | |- None = Some _ -> _ => intros H; discriminate H
  | |- context [match scan_once ?f ?a with _ => _ end] =>
      let E := fresh "E" in
      destruct (scan_once f a) as [[? ?] |] eqn:E;
      [apply IHs in E; rewrite E | intros H; discriminate H]
  | |- context [match ?x with _ => _ end] => destruct x eqn:?
  | |- context [if ?b then _ else _] => destruct b eqn:?
  end.

Lemma fuel_step : forall f,
  (forall s r, scan_once f s = Some r -> scan_once (S f) s = Some r)
  /\ (forall s p r, object_items f s p = Some r -> object_items (S f) s p = Some r)
  /\ (forall s vs r, array_items f s vs = Some r -> array_items (S f) s vs = Some r).
Proof.
  induction f as [| f (IHs & IHo & IHa)].
  - repeat split; intros; discriminate.
  - repeat split.
    + intros s r H. cbn [scan_once] in H.
      set (g := S f). cbn [scan_once]. subst g. revert H.
      repeat step_with IHs IHo IHa.
    + intros s p r H. cbn [object_items] in H.
      set (g := S f). cbn [object_items]. subst g. revert H.
      repeat step_with IHs IHo IHa.
    + intros s vs r H. cbn [array_items] in H.
      set (g := S f). cbn [array_items]. subst g. revert H.
      repeat step_with IHs IHo IHa.
Qed.

Lemma fuel_mono f f' : f <= f' ->
  (forall s r, scan_once f s = Some r -> scan_once f' s = Some r)
  /\ (forall s p r, object_items f s p = Some r -> object_items f' s p = Some r)
  /\ (forall s vs r, array_items f s vs = Some r -> array_items f' s vs = Some r).
Proof.
  induction 1 as [| f' _ (IHs & IHo & IHa)]; [repeat split; auto |].
  destruct (fuel_step f') as (Ss & So & Sa).
  repeat split; intros.
  - now apply Ss, IHs.
  - now apply So, IHo.
  - now apply Sa, IHa.
Qed.

Lemma skip_ws_length s : length (skip_ws s) <= length s.
Proof.
  induction s as [| c s IH]; cbn [skip_ws length]; [lia |].
  destruct (is_ws c); cbn [length]; lia.
Qed.

Lemma span_digits_length s : length (snd (span_digits s)) <= length s.
Proof.
  induction s as [| c s IH]; cbn [span_digits]; [cbn; lia |].
  destruct (is_digit c); [| cbn; lia].
  destruct (span_digits s) as [d r]; cbn [snd length] in *; lia.
Qed.

Ltac split_matches :=
  repeat match goal with
    | |- context [match ?x with _ => _ end] =>
        lazymatch x with
        | context [match _ with _ => _ end] => fail
        | _ => destruct x eqn:?
        end
    end.

Lemma scanstring_shorter_upto : forall n s acc t r,
  length s <= n -> scanstring s acc = Some (t, r) -> length r < length s.
Proof.
  induction n as [| n IH]; intros s acc t r Hn;
    (destruct s as [| c s]; [discriminate |]); cbn [length] in Hn; [lia |].
  cbn [scanstring]. split_matches; subst;
    try (intros H; discriminate H);
    try (intros H; inversion H; subst; cbn [length]; lia);
    intros H; apply IH in H; cbn [length] in *; lia.
Qed.

Lemma scanstring_shorter s acc t r :
  scanstring s acc = Some (t, r) -> length r < length s.
Proof. intros H. eapply scanstring_shorter_upto; [apply le_n | exact H]. Qed.

(** Turn what is known of the scanners into facts on lengths. *)
Ltac lengths :=
  repeat match goal with
    | H : skip_ws ?x = _ |- _ =>
        let L := fresh "L" in
        pose proof (skip_ws_length x) as L; rewrite H in L; clear H
    | H : span_digits ?x = _ |- _ =>
        let L := fresh "L" in
        pose proof (span_digits_length x) as L; rewrite H in L; clear H
    | H : scanstring ?x _ = Some _ |- _ =>
        apply scanstring_shorter in H
    | H : Some _ = Some _ |- _ => inversion H; subst; clear H
    | H : (_, _) = (_, _) |- _ => inversion H; subst; clear H
    end;
  repeat match goal with
    | H : context [length (skip_ws ?x)] |- _ =>
        lazymatch goal with
        | _ : length (skip_ws x) <= length x |- _ => fail
        | _ => pose proof (skip_ws_length x)
        end
    | |- context [length (skip_ws ?x)] =>
        lazymatch goal with
        | _ : length (skip_ws x) <= length x |- _ => fail
        | _ => pose proof (skip_ws_length x)
        end
    end;
  cbn [length snd fst] in *; rewrite ?length_skipn; cbn [length]; try lia.

Lemma match_integer_shorter s neg int r :
  match_integer s = Some (neg, int, r) -> length r < length s.
Proof.
  unfold match_integer. split_matches; intros H; try discriminate H; lengths.
Qed.

Lemma match_frac_shorter s d r :
  match_frac s = Some (d, r) -> length r < length s.
Proof.
  unfold match_frac. split_matches; intros H; try discriminate H; lengths.
Qed.

Lemma match_exp_shorter s e r :
  match_exp s = Some (e, r) -> length r < length s.
Proof.
  unfold match_exp. split_matches; intros H; try discriminate H; lengths.
Qed.

Lemma match_number_shorter s v r :
  match_number s = Some (v, r) -> length r < length s.
Proof.
  unfold match_number.
  destruct (match_integer s) as [[[neg int] r0] |] eqn:Ei; [| discriminate].
  apply match_integer_shorter in Ei.
  destruct (match_frac r0) as [[frac r1] |] eqn:Ef.
  - apply match_frac_shorter in Ef.
    destruct (match_exp r1) as [[e r2] |] eqn:Ee; intros H; inversion H; subst;
      [apply match_exp_shorter in Ee |]; lia.
  - destruct (match_exp r0) as [[e r2] |] eqn:Ee; intros H; inversion H; subst;
      [apply match_exp_shorter in Ee |]; lia.
Qed.

Lemma descent_shorter : forall f,
  (forall s v r, scan_once f s = Some (v, r) -> length r < length s)
  /\ (forall s p v r, object_items f s p = Some (v, r) -> length r < length s)
  /\ (forall s vs v r, array_items f s vs = Some (v, r) -> length r < length s).
Proof.
  induction f as [| f (IHs & IHo & IHa)]; [repeat split; intros; discriminate |].
  repeat split.
  - intros s v r. cbn [scan_once].
    split_matches; intros H; try discriminate H;
      try (apply IHo in H); try (apply IHa in H);
      try match goal with
        | E : match_number _ = Some _ |- _ =>
            inversion H; subst; apply match_number_shorter in E
        end;
      lengths.
    all: repeat match goal with
           | |- context [match ?l with [] => _ | _ :: _ => _ end] =>
               destruct l; cbn [length]; try lia
           end.
  - intros s p v r. cbn [object_items].
    split_matches; intros H; try discriminate H;
      try (apply IHo in H);
      repeat match goal with
        | E : scan_once f _ = Some _ |- _ => apply IHs in E
        end;
      lengths.
  - intros s vs v r. cbn [array_items].
    split_matches; intros H; try discriminate H;
      try (apply IHa in H);
      repeat match goal with
        | E : scan_once f _ = Some _ |- _ => apply IHs in E
        end;
      lengths.
Qed.

Lemma scan_once_mono f f' s r :
  f <= f' -> scan_once f s = Some r -> scan_once f' s = Some r.
Proof. intros Hf. apply (proj1 (fuel_mono Hf)). Qed.

Lemma object_items_mono f f' s p r :
  f <= f' -> object_items f s p = Some r -> object_items f' s p = Some r.
Proof. intros Hf. apply (proj1 (proj2 (fuel_mono Hf))). Qed.

Lemma array_items_mono f f' s vs r :
  f <= f' -> array_items f s vs = Some r -> array_items f' s vs = Some r.
Proof. intros Hf. apply (proj2 (proj2 (fuel_mono Hf))). Qed.

Ltac enough_step f IHs IHo IHa :=
  match goal with
  | |- None = Some _ -> _ => intros H; discriminate H
  | |- Some ?x = Some _ -> Some ?x = Some _ => exact (fun H => H)
  | |- object_items f ?a ?p = Some _ -> object_items ?F ?a ?p = Some _ =>
      let H := fresh "H" in
      intros H; apply IHo in H;
      apply (@object_items_mono (2 * length a + 1) F); [lengths | exact H]
  | |- array_items f ?a ?p = Some _ -> array_items ?F ?a ?p = Some _ =>
      let H := fresh "H" in
      intros H; apply IHa in H;
      apply (@array_items_mono (2 * length a + 1) F); [lengths | exact H]
  | |- context [match scan_once f ?a with _ => _ end] =>
      let E := fresh "E" in
      let P := fresh "P" in
      destruct (scan_once f a) as [[? ?] |] eqn:E;
      [ pose proof (proj1 (descent_shorter f) _ _ _ E) as P;
        apply IHs in E;
        match goal with
        | |- context [scan_once ?F a] =>
            lazymatch F with
            | f => fail
            | _ => rewrite (@scan_once_mono (2 * length a) F _ _
                              ltac:(lengths) E)
            end
        end
      | intros H; discriminate H ]
  | |- context [match ?x with _ => _ end] =>
      lazymatch x with
      | context [match _ with _ => _ end] => fail
      | _ => destruct x eqn:?
      end
  end.

Lemma fuel_enough : forall f,
  (forall s v r, scan_once f s = Some (v, r) ->
                 scan_once (2 * length s) s = Some (v, r))
  /\ (forall s p v r, object_items f s p = Some (v, r) ->
                      object_items (2 * length s + 1) s p = Some (v, r))
  /\ (forall s vs v r, array_items f s vs = Some (v, r) ->
                       array_items (2 * length s + 1) s vs = Some (v, r)).
Proof.
  induction f as [| f (IHs & IHo & IHa)]; [repeat split; intros; discriminate |].
  repeat split.
  - intros s v r H. destruct s as [| c s0]; [discriminate H |].
    replace (2 * length (c :: s0)) with (S (2 * length s0 + 1))
      by (cbn [length]; lia).
    cbn [scan_once] in H |- *. revert H.
    repeat enough_step f IHs IHo IHa.
  - intros s p v r H.
    replace (2 * length s + 1) with (S (2 * length s)) by lia.
    cbn [object_items] in H |- *. revert H.
    repeat enough_step f IHs IHo IHa.
  - intros s vs v r H.
    replace (2 * length s + 1) with (S (2 * length s)) by lia.
    cbn [array_items] in H |- *. revert H.
    repeat enough_step f IHs IHo IHa.
Qed.

(** What the descent reads from [s] with any fuel, [json_loads] reads. *)
Lemma json_loads_fuel_enough f s v r :
  scan_once f (skip_ws s) = Some (v, r) ->
  scan_once (2 * length s + 2) (skip_ws s) = Some (v, r).
Proof.
  intros H. apply (proj1 (fuel_enough f)) in H.
  eapply scan_once_mono; [| exact H].
  pose proof (skip_ws_length s). lia.
Qed.

Lemma json_loads_decodes f s v r :
  startswith s [65279%N] = false ->
  scan_once f (skip_ws s) = Some (v, r) ->
  skip_ws r = [] ->
  json_loads s = Some v.
Proof.
  intros Hb H Hr. unfold json_loads.
  now rewrite Hb, (json_loads_fuel_enough _ _ H), Hr.
Qed.

Lemma json_loads_rejects s :
  json_loads s = None ->
  forall f v r,
    scan_once f (skip_ws s) = Some (v, r) ->
    startswith s [65279%N] = true \/ skip_ws r <> [].
Proof.
  unfold json_loads. intros H f v r Hf.
  destruct (startswith s [65279%N]); [now left | right].
  rewrite (json_loads_fuel_enough _ _ Hf) in H.
  destruct (skip_ws r); [discriminate H | discriminate].
Qed.

End DecoderFuel.

(** ** The body of the loop and the batch *)

Lemma subsequence_length (A : Type) (l1 l2 : list A) :
  subsequence l1 l2 -> length l1 <= length l2.
Proof. induction 1; cbn [length]; lia. Qed.

Lemma filter_none (A : Type) (f : A -> bool) (l : list A) :
  forallb (fun x => negb (f x)) l = true -> filter f l = [].
Proof.
  induction l as [| x l IH]; cbn [forallb filter]; [reflexivity |].
  destruct (f x); cbn [negb andb]; [discriminate | exact IH].
Qed.

Section ReportFacts.

Context {World Image : Type} (env : Env World Image).
Implicit Types st : state World.

(** A translation request always returns. *)
Lemma translate_captions_returns captions lang st :
  exists v st',
    translate_captions env captions lang st = (Ok v, st')
    /\ trace st' =
       trace st ++ [EvPost (text_payload (translation_messages env captions lang))].
Proof.
  unfold translate_captions, call_text_llm, bind. rewrite call_eq.
  eexists; eexists; split; reflexivity.
Qed.

Lemma extract_structured_ru_data_returns text st :
  exists v st',
    extract_structured_ru_data env text st = (Ok v, st')
    /\ trace st' = trace st ++ [EvPost (text_payload (extraction_messages text))].
Proof.
  unfold extract_structured_ru_data, call_text_llm, bind. rewrite call_eq.
  eexists; eexists; split; reflexivity.
Qed.

(** What a report says of the record it was made from. *)
Lemma report_of_some docx sd st rep st' :
  report_of env docx sd st = (Ok (Some rep), st') ->
  exists d c st1,
    sd = VDict d
    /\ dict_lookup d (lit "captions_ru") = Some c
    /\ translate_captions env c (lit "English") st = (Ok (captions_en rep), st1)
    /\ translate_captions env c (lit "Kazakh") st1 = (Ok (captions_kz rep), st')
    /\ truthy (captions_en rep) = true
    /\ truthy (captions_kz rep) = true
    /\ source_file rep = basename env docx
    /\ captions_ru rep = c
    /\ py_get sd (lit "patient_group") NA = Ok (patient_group rep)
    /\ py_get sd (lit "patient_id") NA = Ok (patient_id rep)
    /\ py_get sd (lit "age") NA = Ok (age rep)
    /\ py_get sd (lit "gender") NA = Ok (gender rep).
Proof.
  unfold report_of. unfold bind at 1. unfold lift at 1.
  destruct (captions_missing sd) as [missing | e] eqn:Em; [| discriminate].
  destruct missing; [discriminate |].
  destruct sd as [| b | z | f | s | l | d];
    try (unfold bind, lift; cbn [py_get]; discriminate).
  unfold captions_missing in Em.
  destruct (negb (truthy (VDict d))); [discriminate Em |].
  cbn [py_in] in Em.
  destruct (dict_lookup d (lit "captions_ru")) as [c |] eqn:El;
    [| discriminate Em].
  unfold bind at 1. unfold lift at 1. cbn [py_get]. rewrite El.
  destruct (translate_captions_returns c (lit "English") st)
    as (en & st1 & Een & _).
  rewrite (bind_ok _ _ _ Een).
  destruct (truthy en) eqn:Ten; [| discriminate]. cbn [negb].
  destruct (translate_captions_returns c (lit "Kazakh") st1)
    as (kz & st2 & Ekz & _).
  rewrite (bind_ok _ _ _ Ekz).
  destruct (truthy kz) eqn:Tkz; [| discriminate]. cbn [negb].
  unfold bind, lift. cbn [py_get].
  intros H. inversion H; subst; clear H.
  exists d, c, st1. repeat split; try assumption; reflexivity.
Qed.

(** An exception leaves [report_of] before any translation is requested, and
    only on a truthy record that is not a dictionary. *)
Lemma report_of_raises docx sd st e st' :
  report_of env docx sd st = (Raise e, st') ->
  st' = st /\ truthy sd = true /\ (forall d, sd <> VDict d)
  /\ match sd with
     | VStr _ | VList _ => e = AttributeError
     | _ => e = TypeError
     end.
Proof.
  unfold report_of. unfold bind at 1. unfold lift at 1.
  destruct sd as [| b | z | f | s | l | d]; unfold captions_missing;
    cbn [truthy py_in negb].
  - discriminate.
  - destruct b; cbn [negb]; [| discriminate].
    intros H; inversion H; subst. repeat split; congruence.
  - destruct (negb (z =? 0)%Z) eqn:T; cbn [negb]; [| discriminate].
    intros H; inversion H; subst. repeat split; congruence.
  - destruct (negb (float_is_zero f)) eqn:T; cbn [negb]; [| discriminate].
    intros H; inversion H; subst. repeat split; congruence.
  - destruct (nonempty s) eqn:T; cbn [negb]; [| discriminate].
    destruct (negb (contains (lit "captions_ru") s)); [discriminate |].
    unfold bind, lift; cbn [py_get].
    intros H; inversion H; subst. repeat split; congruence.
  - destruct l as [| x l]; cbn [negb]; [discriminate |].
    destruct (negb (existsb (value_is_str (lit "captions_ru")) (x :: l)));
      [discriminate |].
    unfold bind, lift; cbn [py_get].
    intros H; inversion H; subst. repeat split; congruence.
  - destruct d as [| p d]; cbn [negb]; [discriminate |].
    destruct (dict_lookup (p :: d) (lit "captions_ru")) as [c |] eqn:El;
      cbn [negb]; [| discriminate].
    unfold bind at 1. unfold lift at 1. cbn [py_get]. rewrite El.
    destruct (translate_captions_returns c (lit "English") st)
      as (en & st1 & Een & _).
    rewrite (bind_ok _ _ _ Een).
    destruct (negb (truthy en)); [discriminate |].
    destruct (translate_captions_returns c (lit "Kazakh") st1)
      as (kz & st2 & Ekz & _).
    rewrite (bind_ok _ _ _ Ekz).
    destruct (negb (truthy kz)); [discriminate |].
    unfold bind, lift; cbn [py_get]. discriminate.
Qed.

Lemma convert_returns docx st :
  exists r st1,
    convert_docx_to_pdf env docx st = (Ok r, st1)
    /\ trace st1 = trace st ++ [EvConvert docx].
Proof.
  unfold convert_docx_to_pdf. rewrite call_eq.
  eexists; eexists; split; reflexivity.
Qed.

Lemma pdf_to_images_returns pdf st :
  exists images st1,
    pdf_to_images env pdf st = (Ok images, st1)
    /\ trace st1 = trace st ++ [EvRasterize pdf].
Proof.
  unfold pdf_to_images, bind. rewrite call_eq.
  eexists; eexists; split; reflexivity.
Qed.

Lemma pdf_to_text_returns pdf st :
  exists text st1,
    pdf_to_text env pdf st = (Ok text, st1)
    /\ trace st1 = trace st ++ [EvReadText pdf].
Proof.
  unfold pdf_to_text, bind. rewrite call_eq.
  eexists; eexists; split; reflexivity.
Qed.

(** Text resolution never raises. *)
Lemma resolve_text_returns force pdf st :
  exists r st', resolve_text env force pdf st = (Ok r, st').
Proof.
  destruct force.
  - destruct (pdf_to_images_returns pdf st) as (images & st1 & Ei & _).
    rewrite (resolve_text_forced env _ _ Ei). eauto.
  - destruct (pdf_to_text_returns pdf st) as (text & st1 & Et & _).
    destruct (Nat.lt_ge_cases (length text) 50) as [Hlt | Hge].
    + destruct (pdf_to_images_returns pdf st1) as (images & st2 & Ei & _).
      rewrite (resolve_text_fallback env _ _ Et Hlt Ei). eauto.
    + rewrite (resolve_text_direct env _ _ Et Hge). eauto.
Qed.

(** The ways through the body of the loop. *)
Lemma extract_and_report_cases docx pdf text st res st' :
  extract_and_report env docx pdf text st = (res, st') ->
  (strip text = [] /\ res = Ok None /\ st' = removed env pdf st)
  \/ (strip text <> []
      /\ exists sd st1,
           extract_structured_ru_data env text (removed env pdf st)
           = (Ok sd, st1)
           /\ report_of env docx sd st1 = (res, st')).
Proof.
  intros H. destruct (strip text) as [| c t] eqn:Es.
  - rewrite (extract_and_report_blank env docx pdf text st Es) in H.
    inversion H; subst. left. auto.
  - right. split; [discriminate |].
    rewrite extract_and_report_text in H by (rewrite Es; discriminate).
    destruct (extract_structured_ru_data_returns text (removed env pdf st))
      as (sd & st1 & Ee & _).
    rewrite (bind_ok _ _ _ Ee) in H. eauto.
Qed.

Lemma process_document_cases force docx st res st' :
  process_document env force docx st = (res, st') ->
  exists r st1,
    convert_docx_to_pdf env docx st = (Ok r, st1)
    /\ (((r = None \/ r = Some []) /\ res = Ok None /\ st' = st1)
        \/ exists pdf,
             r = Some pdf /\ nonempty pdf = true
             /\ exists rt st2,
                  resolve_text env force pdf st1 = (Ok rt, st2)
                  /\ ((rt = None /\ res = Ok None /\ st' = st2)
                      \/ exists text,
                           rt = Some text
                           /\ extract_and_report env docx pdf text st2
                              = (res, st'))).
Proof.
  intros H.
  destruct (convert_returns docx st) as (r & st1 & Ec & _).
  exists r, st1. split; [exact Ec |].
  destruct r as [pdf |].
  - destruct (nonempty pdf) eqn:Hne.
    + right. exists pdf. repeat split; try assumption.
      rewrite (process_document_converted env force _ _ Ec Hne) in H.
      destruct (resolve_text_returns force pdf st1) as (rt & st2 & Er).
      rewrite (bind_ok _ _ _ Er) in H.
      exists rt, st2. split; [exact Er |].
      destruct rt as [text |].
      * right. eauto.
      * left. inversion H; subst. auto.
    + left. unfold process_document in H.
      rewrite (bind_ok _ _ _ Ec), Hne in H. inversion H; subst.
      destruct pdf; [auto | discriminate].
  - left. unfold process_document in H.
    rewrite (bind_ok _ _ _ Ec) in H. inversion H; subst. auto.
Qed.

Lemma process_document_unconverted force docx st r st1 :
  convert_docx_to_pdf env docx st = (Ok r, st1) ->
  (r = None \/ r = Some []) ->
  process_document env force docx st = (Ok None, st1).
Proof.
  intros Ec Hr. unfold process_document. rewrite (bind_ok _ _ _ Ec).
  destruct Hr as [-> | ->]; reflexivity.
Qed.

(** X1.  When the conversion of a document fails, or gives an empty path, the
    document is skipped and the conversion is the only call made for it: no
    text is read, no page is rasterized, no request is sent and nothing is
    removed. *)
Theorem failed_conversion_makes_no_other_call force docx st r st1 :
  convert_docx_to_pdf env docx st = (Ok r, st1) ->
  (r = None \/ r = Some []) ->
  process_document env force docx st = (Ok None, st1)
  /\ trace st1 = trace st ++ [EvConvert docx].
Proof.
  intros Ec Hr. split; [| exact (convert_trace env _ _ Ec)].
  exact (process_document_unconverted force _ _ Ec Hr).
Qed.

(** X2.  A report is made from the record of its own document, and from a
    dictionary only.  The document is converted, its text is resolved, and
    the extraction of that text, requested once the temporary PDF is removed,
    returns a dictionary: the Russian captions of the report are the value
    under [captions_ru] of this dictionary, its translations are the truthy
    answers to the two translation requests on these captions, its four
    patient fields are the values of the dictionary, or [N/A] where it has
    none, and its name is the base name of the document. *)
Theorem report_fields_come_from_record force docx st rep st' :
  process_document env force docx st = (Ok (Some rep), st') ->
  exists pdf st1 text st2 d st3 st4,
    convert_docx_to_pdf env docx st = (Ok (Some pdf), st1)
    /\ resolve_text env force pdf st1 = (Ok (Some text), st2)
    /\ extract_structured_ru_data env text (removed env pdf st2)
       = (Ok (VDict d), st3)
    /\ dict_lookup d (lit "captions_ru") = Some (captions_ru rep)
    /\ translate_captions env (captions_ru rep) (lit "English") st3
       = (Ok (captions_en rep), st4)
    /\ translate_captions env (captions_ru rep) (lit "Kazakh") st4
       = (Ok (captions_kz rep), st')
    /\ py_get (VDict d) (lit "patient_group") NA = Ok (patient_group rep)
    /\ py_get (VDict d) (lit "patient_id") NA = Ok (patient_id rep)
    /\ py_get (VDict d) (lit "age") NA = Ok (age rep)
    /\ py_get (VDict d) (lit "gender") NA = Ok (gender rep)
    /\ source_file rep = basename env docx
    /\ truthy (captions_en rep) = true
    /\ truthy (captions_kz rep) = true.
Proof.
  intros H.
  destruct (process_document_cases _ _ _ H)
    as (r & st1 & Ec & [(_ & Hres & _) | (pdf & -> & _ & rt & st2 & Er & Hrt)]);
    [discriminate Hres |].
  destruct Hrt as [(_ & Hres & _) | (text & -> & He)]; [discriminate Hres |].
  destruct (extract_and_report_cases _ _ _ _ He)
    as [(_ & Hres & _) | (_ & sd & st3 & Ee & Hr)]; [discriminate Hres |].
  destruct (report_of_some _ _ _ Hr)
    as (d & c & st4 & -> & El & Een & Ekz & Ten & Tkz & Hs & Hc & Hg & Hi
        & Ha & Hge).
  subst c.
  exists pdf, st1, text, st2, d, st3, st4.
  repeat split; assumption.
Qed.

Lemma report_of_posts docx sd st res st' :
  report_of env docx sd st = (res, st') ->
  exists posts,
    trace st' = trace st ++ posts
    /\ (posts = []
        \/ exists d c,
             sd = VDict d /\ dict_lookup d (lit "captions_ru") = Some c
             /\ ((posts = [english env c] /\ res = Ok None)
                 \/ posts = [english env c; kazakh env c]))
    /\ (forall rep, res = Ok (Some rep) ->
                    posts = [english env (captions_ru rep);
                             kazakh env (captions_ru rep)]).
Proof.
  intros H.
  destruct res as [[rep |] | e].
  - destruct (report_of_some _ _ _ H)
      as (d & c & st1 & -> & El & Een & Ekz & _ & _ & _ & Hc & _).
    destruct (translate_captions_returns c (lit "English") st)
      as (en & st1' & Een' & Ten).
    rewrite Een in Een'. inversion Een'; subst st1'. clear Een'.
    destruct (translate_captions_returns c (lit "Kazakh") st1)
      as (kz & st2' & Ekz' & Tkz).
    rewrite Ekz in Ekz'. inversion Ekz'; subst st2'. clear Ekz'.
    exists [english env c; kazakh env c]. repeat split.
    + rewrite Tkz, Ten, <- app_assoc. reflexivity.
    + right. exists d, c. auto.
    + intros rep' Hr. inversion Hr; subst. reflexivity.
  - revert H. unfold report_of. unfold bind at 1. unfold lift at 1.
    destruct (captions_missing sd) as [missing | e] eqn:Em; [| discriminate].
    destruct missing.
    { intros H; inversion H; subst.
      exists []. rewrite app_nil_r. repeat split; [now left | discriminate]. }
    destruct sd as [| b | z | f | s | l | d];
      try (unfold bind, lift; cbn [py_get]; discriminate).
    unfold captions_missing in Em.
    destruct (negb (truthy (VDict d))); [discriminate Em |].
    cbn [py_in] in Em.
    destruct (dict_lookup d (lit "captions_ru")) as [c |] eqn:El;
      [| discriminate Em].
    unfold bind at 1. unfold lift at 1. cbn [py_get]. rewrite El.
    destruct (translate_captions_returns c (lit "English") st)
      as (en & st1 & Een & Ten).
    rewrite (bind_ok _ _ _ Een).
    destruct (negb (truthy en)).
    { intros H; inversion H; subst.
      exists [english env c]. repeat split; [exact Ten | | discriminate].
      right. exists d, c. auto. }
    destruct (translate_captions_returns c (lit "Kazakh") st1)
      as (kz & st2 & Ekz & Tkz).
    rewrite (bind_ok _ _ _ Ekz).
    destruct (negb (truthy kz)).
    { intros H; inversion H; subst.
      exists [english env c; kazakh env c]. repeat split; [| | discriminate].
      - rewrite Tkz, Ten, <- app_assoc. reflexivity.
      - right. exists d, c. auto. }
    unfold bind, lift; cbn [py_get]. discriminate.
  - destruct (report_of_raises _ _ _ H) as (-> & _).
    exists []. rewrite app_nil_r. repeat split; [now left | discriminate].
Qed.

(** X4.  The temporary PDF is removed once, right after the text is
    resolved, and then at most three text requests are made, in this order:
    the extraction of the resolved text, the English and the Kazakh
    translation of one and the same captions value.  A report needs all
    three. *)
Theorem text_requests_in_order docx pdf text st res st' :
  extract_and_report env docx pdf text st = (res, st') ->
  let extraction := EvPost (text_payload (extraction_messages text)) in
  exists posts,
    trace st' = trace st ++ EvRemove pdf :: posts
    /\ (posts = [] \/ posts = [extraction]
        \/ exists c, posts = [extraction; english env c]
                     \/ posts = [extraction; english env c; kazakh env c])
    /\ (forall rep, res = Ok (Some rep) ->
                    posts = [extraction; english env (captions_ru rep);
                             kazakh env (captions_ru rep)]).
Proof.
  intros H extraction.
  destruct (extract_and_report_cases _ _ _ _ H)
    as [(_ & -> & ->) | (_ & sd & st1 & Ee & Hr)].
  - exists []. repeat split; [now left | discriminate].
  - destruct (extract_structured_ru_data_returns text (removed env pdf st))
      as (sd' & st1' & Ee' & Te).
    rewrite Ee in Ee'. inversion Ee'; subst sd' st1'. clear Ee'.
    destruct (report_of_posts _ _ _ Hr) as (posts & Tp & Hshape & Hrep).
    exists (extraction :: posts). repeat split.
    + rewrite Tp, Te. cbn [removed trace]. now rewrite <- !app_assoc.
    + destruct Hshape as [-> | (d & c & _ & _ & [(-> & _) | ->])].
      * right. now left.
      * right. right. exists c. now left.
      * right. right. exists c. now right.
    + intros rep Hres. now rewrite (Hrep rep Hres).
Qed.

(** X5.  When the extraction request fails, or is answered with an empty
    content, the document is skipped after this one request. *)
Theorem failed_extraction_skips_document docx pdf text st r w :
  strip text <> [] ->
  requests_post env (text_payload (extraction_messages text))
    (world (removed env pdf st)) = (r, w) ->
  match r with
  | Content c => c = []
  | RequestException _ => True
  end ->
  extract_and_report env docx pdf text st =
  (Ok None,
   {| world := w;
      trace := trace st ++ [EvRemove pdf;
                            EvPost (text_payload (extraction_messages text))] |}).
Proof.
  intros Hs Hp Hr.
  rewrite extract_and_report_text by exact Hs.
  unfold extract_structured_ru_data, call_text_llm.
  unfold bind at 1 2 3. rewrite call_eq, Hp. cbn [fst snd].
  assert (Hv : parse_if_any
                 match r with
                 | Content c => Some c
                 | RequestException _ => None
                 end = VNone).
  { destruct r as [c | e]; [subst c |]; reflexivity. }
  unfold ret at 1 2. rewrite Hv.
  unfold report_of, bind, lift, removed. cbn.
  now rewrite <- app_assoc.
Qed.

(** X6.  A falsy translation skips the document.  When the English
    translation is falsy the Kazakh one is not requested: the state is the one
    the English request left. *)
Theorem failed_translation_skips_document docx d c st en st1 kz st2 :
  dict_lookup d (lit "captions_ru") = Some c ->
  translate_captions env c (lit "English") st = (Ok en, st1) ->
  translate_captions env c (lit "Kazakh") st1 = (Ok kz, st2) ->
  truthy en = false \/ truthy kz = false ->
  report_of env docx (VDict d) st
  = (Ok None, if truthy en then st2 else st1).
Proof.
  intros El Een Ekz Hfalsy.
  assert (Hm : captions_missing (VDict d) = Ok false).
  { unfold captions_missing. destruct d as [| p d]; [discriminate El |].
    cbn [truthy negb py_in]. now rewrite El. }
  unfold report_of. unfold bind at 1. unfold lift at 1.
  rewrite Hm. unfold bind at 1. unfold lift at 1. cbn [py_get]. rewrite El.
  rewrite (bind_ok _ _ _ Een).
  destruct (truthy en); cbn [negb]; [| reflexivity].
  destruct Hfalsy as [Hen | Hkz]; [discriminate Hen |].
  rewrite (bind_ok _ _ _ Ekz), Hkz. reflexivity.
Qed.

(** What each step may call. *)

Lemma ocr_pages_emits P images : forall acc,
  (forall image, P (EvPost (ocr_payload env image)) = true) ->
  emits_only P (ocr_pages env images acc).
Proof.
  induction images as [| image rest IH]; intros acc HP; cbn [ocr_pages].
  - apply emits_ret.
  - apply emits_bind; [| intros t; now apply IH].
    unfold ocr_image_with_vision_llm.
    apply emits_bind; [| intros r; apply emits_ret].
    apply emits_call, HP.
Qed.

Lemma pdf_to_images_emits P pdf :
  P (EvRasterize pdf) = true -> emits_only P (pdf_to_images env pdf).
Proof.
  intros HP. unfold pdf_to_images.
  apply emits_bind; [now apply emits_call | intros r; apply emits_ret].
Qed.

Lemma resolve_text_emits P force pdf :
  P (EvRasterize pdf) = true ->
  (force = false -> P (EvReadText pdf) = true) ->
  (forall image, P (EvPost (ocr_payload env image)) = true) ->
  emits_only P (resolve_text env force pdf).
Proof.
  intros Hr Ht Ho. unfold resolve_text. destruct force.
  - apply emits_bind; [now apply pdf_to_images_emits | intros images].
    destruct images; [apply emits_ret |].
    apply emits_bind; [now apply ocr_pages_emits | intros t; apply emits_ret].
  - apply emits_bind.
    + unfold pdf_to_text.
      apply emits_bind; [apply emits_call; now apply Ht | intros r; apply emits_ret].
    + intros text. destruct (length text <? 50); [| apply emits_ret].
      apply emits_bind; [now apply pdf_to_images_emits | intros images].
      destruct images; [apply emits_ret |].
      apply emits_bind; [now apply ocr_pages_emits | intros t; apply emits_ret].
Qed.

Lemma call_text_llm_emits P msgs :
  P (EvPost (text_payload msgs)) = true ->
  emits_only P (call_text_llm env msgs).
Proof.
  intros HP. unfold call_text_llm.
  apply emits_bind; [now apply emits_call | intros r; apply emits_ret].
Qed.

Lemma extract_and_report_emits P docx pdf text :
  P (EvRemove pdf) = true ->
  (forall msgs, P (EvPost (text_payload msgs)) = true) ->
  emits_only P (extract_and_report env docx pdf text).
Proof.
  intros Hr Hp. unfold extract_and_report.
  apply emits_bind; [now apply emits_call | intros _].
  destruct (negb (nonempty (strip text))); [apply emits_ret |].
  apply emits_bind.
  { unfold extract_structured_ru_data.
    apply emits_bind; [apply call_text_llm_emits, Hp | intros r; apply emits_ret]. }
  intros sd. unfold report_of.
  apply emits_bind; [apply emits_lift | intros missing].
  destruct missing; [apply emits_ret |].
  apply emits_bind; [apply emits_lift | intros c].
  assert (Ht : forall lang, emits_only P (translate_captions env c lang)).
  { intros lang. unfold translate_captions.
    apply emits_bind; [apply call_text_llm_emits, Hp | intros r; apply emits_ret]. }
  apply emits_bind; [apply Ht | intros en].
  destruct (negb (truthy en)); [apply emits_ret |].
  apply emits_bind; [apply Ht | intros kz].
  destruct (negb (truthy kz)); [apply emits_ret |].
  repeat (apply emits_bind; [apply emits_lift | intros ?]).
  apply emits_ret.
Qed.

(** What follows the conversion in the body of the loop. *)
Lemma after_conversion_emits P force docx pdf :
  P (EvRasterize pdf) = true ->
  (force = false -> P (EvReadText pdf) = true) ->
  (forall p, P (EvPost p) = true) ->
  P (EvRemove pdf) = true ->
  emits_only P
    (resolved <- resolve_text env force pdf ;;
     match resolved with
     | None => ret None
     | Some full_ocr_text => extract_and_report env docx pdf full_ocr_text
     end).
Proof.
  intros Hr Ht Hp Hm.
  apply emits_bind; [now apply resolve_text_emits | intros rt].
  destruct rt; [| apply emits_ret].
  now apply extract_and_report_emits.
Qed.

(** X7.  Under forced OCR the text layer of a document is never read,
    whatever becomes of the document. *)
Theorem forced_ocr_never_reads_text_layer docx st :
  exists evs,
    trace (snd (process_document env true docx st)) = trace st ++ evs
    /\ forallb (fun e => negb (is_read_text e)) evs = true.
Proof.
  destruct (process_document env true docx st) as [res st'] eqn:E.
  cbn [snd]. revert st res st' E.
  change (emits_only (fun e => negb (is_read_text e))
            (process_document env true docx)).
  unfold process_document.
  apply emits_bind; [now apply emits_call | intros r].
  destruct r as [pdf |]; [| apply emits_ret].
  destruct (negb (nonempty pdf)); [apply emits_ret |].
  apply after_conversion_emits; try reflexivity. discriminate.
Qed.

(** X8.  Under forced OCR the resolved text is made of the page texts alone:
    one OCR request per page, in page order, right after the
    rasterization. *)
Theorem forced_ocr_resolves_page_texts pdf st images st1 :
  pdf_to_images env pdf st = (Ok images, st1) ->
  images <> [] ->
  let texts := fst (page_results env images st1) in
  let st2 := snd (page_results env images st1) in
  resolve_text env true pdf st = (Ok (Some (blank_line_joined texts)), st2)
  /\ length texts = length images
  /\ trace st2 =
     trace st ++ EvRasterize pdf
              :: map (fun image => EvPost (ocr_payload env image)) images.
Proof.
  intros Hi Hne texts st2. repeat split.
  - rewrite (resolve_text_forced env _ _ Hi).
    destruct images; [congruence | reflexivity].
  - apply page_results_length.
  - subst st2. rewrite page_results_trace.
    destruct (pdf_to_images_returns pdf st) as (images' & st1' & Hi' & T).
    rewrite Hi in Hi'. inversion Hi'; subst.
    now rewrite T, <- app_assoc.
Qed.

(** X9.  A document skipped because no page image could be produced leaves
    its temporary PDF behind: the loop goes on before [os.remove]. *)
Theorem no_page_image_leaves_temporary_pdf (force : bool) docx st pdf st1
  (direct : str) st2 st3 :
  convert_docx_to_pdf env docx st = (Ok (Some pdf), st1) ->
  nonempty pdf = true ->
  (if force then st2 = st1
   else pdf_to_text env pdf st1 = (Ok direct, st2) /\ length direct < 50) ->
  pdf_to_images env pdf st2 = (Ok [], st3) ->
  process_document env force docx st = (Ok None, st3)
  /\ trace st3 =
     trace st ++ EvConvert docx
              :: (if force then [] else [EvReadText pdf]) ++ [EvRasterize pdf]
  /\ forallb (fun e => negb (is_remove e))
       (EvConvert docx
        :: (if force then [] else [EvReadText pdf]) ++ [EvRasterize pdf])
     = true.
Proof.
  intros Hc Hne Hpath Hi.
  destruct (pdf_to_images_returns pdf st2) as (images' & st3' & Hi' & Ti).
  rewrite Hi in Hi'. inversion Hi'; subst images' st3'. clear Hi'.
  rewrite (process_document_converted env force _ _ Hc Hne).
  destruct force.
  - subst st2. rewrite (bind_ok _ _ _ (resolve_text_forced env _ _ Hi)).
    repeat split. rewrite Ti, (convert_trace env _ _ Hc).
    now rewrite <- app_assoc.
  - destruct Hpath as [Ht Hlen].
    rewrite (bind_ok _ _ _ (resolve_text_fallback env _ _ Ht Hlen Hi)).
    repeat split.
    rewrite Ti, (pdf_to_text_trace env _ _ Ht), (convert_trace env _ _ Hc).
    now rewrite <- !app_assoc.
Qed.

Lemma process_document_conversion force docx st res st' :
  process_document env force docx st = (res, st') ->
  exists evs,
    trace st' = trace st ++ EvConvert docx :: evs
    /\ forallb (fun e => negb (is_convert e)) evs = true.
Proof.
  intros H. unfold process_document in H.
  destruct (convert_returns docx st) as (r & st1 & Ec & Tc).
  rewrite (bind_ok _ _ _ Ec) in H.
  assert (He : emits_only (fun e => negb (is_convert e))
                 (match r with
                  | None => ret None
                  | Some pdf =>
                      if negb (nonempty pdf) then ret None
                      else
                        resolved <- resolve_text env force pdf ;;
                        match resolved with
                        | None => ret None
                        | Some full_ocr_text =>
                            extract_and_report env docx pdf full_ocr_text
                        end
                  end)).
  { destruct r as [pdf |]; [| apply emits_ret].
    destruct (negb (nonempty pdf)); [apply emits_ret |].
    now apply after_conversion_emits. }
  destruct (He _ _ _ H) as (evs & T & F).
  exists evs. split; [| exact F].
  now rewrite T, Tc, <- app_assoc.
Qed.

Lemma batch_loop_conversions force docs : forall acc st res st',
  batch_loop env force docs acc st = (Ok res, st') ->
  exists evs,
    trace st' = trace st ++ evs
    /\ filter is_convert evs = map EvConvert docs.
Proof.
  induction docs as [| docx rest IH]; intros acc st res st' H.
  - inversion H; subst. exists []. now rewrite app_nil_r.
  - cbn [batch_loop] in H.
    destruct (process_document env force docx st) as [[r | e] st1] eqn:Ep;
      [| rewrite (bind_raise _ _ _ Ep) in H; discriminate H].
    rewrite (bind_ok _ _ _ Ep) in H.
    destruct (process_document_conversion _ _ _ Ep) as (evs1 & T1 & F1).
    destruct (IH _ _ _ _ H) as (evs2 & T2 & F2).
    exists ((EvConvert docx :: evs1) ++ evs2). split.
    + now rewrite T2, T1, <- app_assoc.
    + rewrite filter_app. cbn [filter is_convert map].
      now rewrite (filter_none _ _ F1), F2.
Qed.

(** X10.  A batch that is not aborted converts each of its documents once,
    in the order of the input. *)
Theorem every_document_is_converted_once force docs st out st' :
  main env force docs st = (Ok out, st') ->
  exists evs,
    trace st' = trace st ++ evs
    /\ filter is_convert evs = map EvConvert docs.
Proof.
  unfold main. destruct docs as [| d0 rest].
  - intros H; inversion H; subst. exists []. now rewrite app_nil_r.
  - intros H.
    destruct (batch_loop env force (d0 :: rest) [] st) as [[l | e] st1] eqn:Eb;
      [| rewrite (bind_raise _ _ _ Eb) in H; discriminate H].
    rewrite (bind_ok _ _ _ Eb) in H.
    assert (st' = st1) by (destruct l; inversion H; reflexivity). subst st1.
    exact (batch_loop_conversions _ _ _ _ Eb).
Qed.



Lemma process_document_report_name force docx st rep st' :
  process_document env force docx st = (Ok (Some rep), st') ->
  source_file rep = basename env docx
  /\ truthy (captions_en rep) = true
  /\ truthy (captions_kz rep) = true.
Proof.
  intros H.
  destruct (process_document_cases _ _ _ H)
    as (r & st1 & _ & [(_ & Hres & _) | (pdf & _ & _ & rt & st2 & _ & Hrt)]);
    [discriminate Hres |].
  destruct Hrt as [(_ & Hres & _) | (text & _ & He)]; [discriminate Hres |].
  destruct (extract_and_report_cases _ _ _ _ He)
    as [(_ & Hres & _) | (_ & sd & st3 & Ee & Hr)]; [discriminate Hres |].
  destruct (report_of_some _ _ _ Hr)
    as (d & c & st4 & _ & _ & _ & _ & Ten & Tkz & Hs & _).
  auto.
Qed.

Lemma batch_loop_reports force docs : forall acc st out st',
  batch_loop env force docs acc st = (Ok out, st') ->
  exists new,
    out = acc ++ new
    /\ subsequence (map source_file new) (map (basename env) docs)
    /\ Forall translated new.
Proof.
  induction docs as [| docx rest IH]; intros acc st out st' H.
  - inversion H; subst. exists []. rewrite app_nil_r.
    repeat split; constructor.
  - cbn [batch_loop] in H.
    destruct (process_document env force docx st) as [[r | e] st1] eqn:Ep;
      [| rewrite (bind_raise _ _ _ Ep) in H; discriminate H].
    rewrite (bind_ok _ _ _ Ep) in H.
    destruct (IH _ _ _ _ H) as (new & -> & Hsub & Hall).
    destruct r as [rep |].
    + destruct (process_document_report_name _ _ _ Ep) as (Hn & Ht).
      exists (rep :: new). rewrite <- app_assoc. repeat split.
      * cbn [map]. rewrite Hn. now apply subsequence_take.
      * constructor; assumption.
    + exists new. repeat split; [| exact Hall].
      cbn [map]. now apply subsequence_skip.
Qed.

(** X12.  What [main] writes is never empty, holds at most one report per
    input document, names its reports after input documents in the order of
    the input, and holds only reports with two truthy translations. *)
Theorem written_reports_follow_the_input force docs st out st' :
  main env force docs st = (Ok (Some out), st') ->
  out <> []
  /\ length out <= length docs
  /\ subsequence (map source_file out) (map (basename env) docs)
  /\ Forall translated out.
Proof.
  unfold main. destruct docs as [| d0 rest]; [discriminate |].
  intros H.
  destruct (batch_loop env force (d0 :: rest) [] st) as [[l | e] st1] eqn:Eb;
    [| rewrite (bind_raise _ _ _ Eb) in H; discriminate H].
  rewrite (bind_ok _ _ _ Eb) in H.
  destruct l as [| rep l]; [discriminate H |].
  inversion H; subst; clear H.
  destruct (batch_loop_reports _ _ _ _ Eb) as (new & Hout & Hsub & Hall).
  cbn [app] in Hout. subst new.
  repeat split; try assumption; [discriminate |].
  apply subsequence_length in Hsub. now rewrite !length_map in Hsub.
Qed.

End ReportFacts.

(** ** Fences and blank space around a response *)
Section ReplaceFacts.

Lemma startswith_length s p : startswith s p = true -> length p <= length s.
Proof.
  revert s. induction p as [| y p IH]; intros s H; cbn [length]; [lia |].
  destruct s as [| x s]; [discriminate H |].
  cbn [startswith] in H. apply andb_prop in H. destruct H as [_ H].
  apply IH in H. cbn [length]. lia.
Qed.

Lemma startswith_sep c old : absent c old ->
  forall a b, startswith (a ++ c :: b) old = startswith a old.
Proof.
  unfold absent. induction old as [| y old IH]; intros Hc a b.
  - destruct a; reflexivity.
  - cbn [forallb] in Hc. apply andb_prop in Hc. destruct Hc as [Hy Hc].
    destruct a as [| x a]; cbn [app startswith].
    + rewrite N.eqb_sym. apply negb_true_iff in Hy. now rewrite Hy.
    + now rewrite IH.
Qed.

Lemma replace_scan_sep c old new b :
  old <> [] -> absent c old ->
  forall a k,
    k <= length a ->
    replace_scan old new (a ++ c :: b) k =
    replace_scan old new a k ++ c :: replace_scan old new b 0.
Proof.
  intros Hne Hc. induction a as [| x a IH]; intros k Hk.
  - cbn [length] in Hk. assert (k = 0) by lia. subst k.
    cbn [app replace_scan].
    pose proof (startswith_sep Hc [] b) as E. cbn [app] in E. rewrite E.
    destruct old; [congruence | reflexivity].
  - cbn [app replace_scan]. destruct k as [| k].
    + change (x :: a ++ c :: b) with ((x :: a) ++ c :: b).
      rewrite (startswith_sep Hc (x :: a) b).
      destruct (startswith (x :: a) old) eqn:Es.
      * apply startswith_length in Es. cbn [length] in Es.
        rewrite IH by lia. now rewrite app_assoc.
      * rewrite IH by lia. reflexivity.
    + cbn [length] in Hk. rewrite IH by lia. reflexivity.
Qed.

Lemma replace_sep c old new a b :
  old <> [] -> absent c old ->
  replace old new (a ++ c :: b) = replace old new a ++ c :: replace old new b.
Proof.
  intros Hne Hc. unfold replace. destruct old as [| y old]; [congruence |].
  apply replace_scan_sep; [discriminate | exact Hc | lia].
Qed.

Lemma replace_absent old new s :
  old <> [] -> contains old s = false -> replace old new s = s.
Proof.
  intros Hne. unfold replace. destruct old as [| y old]; [congruence |].
  induction s as [| x s IH]; intros H; [reflexivity |].
  cbn [contains] in H. apply orb_false_iff in H. destruct H as [Hs Ht].
  cbn [replace_scan]. rewrite Hs. now rewrite IH.
Qed.

End ReplaceFacts.


(** What is left of a fenced response: the stripped payload between two line
    feeds. *)
Lemma strip_fences_fenced p :
  strip_fences (Scenario.fenced p) = nl ++ strip_fences p ++ nl.
Proof.
  unfold strip_fences, Scenario.fenced, nl.
  change (lit "```json" ++ [10%N] ++ p ++ [10%N] ++ lit "```")
    with (lit "```json" ++ 10%N :: (p ++ 10%N :: lit "```")).
  rewrite (@replace_sep 10%N (lit "json")) by (discriminate || reflexivity).
  rewrite (@replace_sep 10%N (lit "json")) by (discriminate || reflexivity).
  change (replace (lit "json") [] (lit "```json")) with (lit "```").
  change (replace (lit "json") [] (lit "```")) with (lit "```").
  rewrite (@replace_sep 10%N (lit "```")) by (discriminate || reflexivity).
  rewrite (@replace_sep 10%N (lit "```")) by (discriminate || reflexivity).
  change (replace (lit "```") [] (lit "```")) with (@nil char).
  reflexivity.
Qed.

Section Trailing.

Lemma is_ws_cases c :
  is_ws c = true -> c = 32%N \/ c = 9%N \/ c = 10%N \/ c = 13%N.
Proof.
  unfold is_ws. rewrite !orb_true_iff, !N.eqb_eq. tauto.
Qed.

Lemma skip_ws_snoc c s :
  is_ws c = true ->
  skip_ws (s ++ [c]) =
  match skip_ws s with
  | [] => []
  | y :: l => y :: (l ++ [c])
  end.
Proof.
  intros Hc. induction s as [| x s IH]; cbn [app skip_ws].
  - now rewrite Hc.
  - destruct (is_ws x); [exact IH | reflexivity].
Qed.

Lemma span_digits_snoc c s :
  is_ws c = true ->
  span_digits (s ++ [c]) = (fst (span_digits s), snd (span_digits s) ++ [c]).
Proof.
  intros Hc.
  assert (Hd : is_digit c = false)
    by (destruct (is_ws_cases c Hc) as [-> | [-> | [-> | ->]]]; reflexivity).
  induction s as [| x s IH]; cbn [app span_digits].
  - now rewrite Hd.
  - destruct (is_digit x); [| reflexivity].
    rewrite IH. destruct (span_digits s); reflexivity.
Qed.

Lemma decode_uXXXX_ws c h1 h2 h3 :
  is_ws c = true -> decode_uXXXX h1 h2 h3 c = None.
Proof.
  intros Hc. unfold decode_uXXXX.
  assert (Hh : hexval c = None)
    by (destruct (is_ws_cases c Hc) as [-> | [-> | [-> | ->]]]; reflexivity).
  rewrite Hh. destruct (hexval h1), (hexval h2), (hexval h3); reflexivity.
Qed.

(** Take apart every list that is matched with the character [c] appended. *)
Ltac split_lists c :=
  repeat match goal with
    | |- context [match ?l ++ [c] with _ => _ end] =>
        is_var l; destruct l; cbn [app]
    end.

(** No escape ends in the character [c]. *)
Ltac no_escape c Hc :=
  repeat match goal with
    | |- context [decode_uXXXX ?h1 ?h2 ?h3 c] =>
        rewrite (decode_uXXXX_ws h1 h2 h3 Hc)
    end.

(** Replace a test on closed numbers by its value. *)
Ltac decide_closed :=
  repeat match goal with
    | |- context [N.eqb ?a ?b] =>
        let v := eval vm_compute in (N.eqb a b) in
        lazymatch v with
        | true => change (N.eqb a b) with true
        | false => change (N.eqb a b) with false
        end
    | |- context [N.ltb ?a ?b] =>
        let v := eval vm_compute in (N.ltb a b) in
        lazymatch v with
        | true => change (N.ltb a b) with true
        | false => change (N.ltb a b) with false
        end
    | |- context [is_digit ?a] =>
        let v := eval vm_compute in (is_digit a) in
        lazymatch v with
        | true => change (is_digit a) with true
        | false => change (is_digit a) with false
        end
    | |- context [backslash_table ?a] =>
        let v := eval vm_compute in (backslash_table a) in
        lazymatch v with
        | None => change (backslash_table a) with (@None char)
        end
    end;
  rewrite ?andb_false_r; cbv beta iota.

Ltac split_tests :=
  repeat match goal with
    | |- context [match ?x with _ => _ end] =>
        lazymatch x with
        | context [match _ with _ => _ end] => fail
        | context [scanstring] => fail
        | _ => destruct x eqn:?
        end
    end.

Lemma scanstring_snoc_upto c : is_ws c = true ->
  forall n s acc,
    length s <= n ->
    scanstring (s ++ [c]) acc = extend c (scanstring s acc).
Proof.
  intros Hc. induction n as [| n IH]; intros s acc Hn.
  - destruct s; [| cbn [length] in Hn; lia].
    destruct (is_ws_cases c Hc) as [-> | [-> | [-> | ->]]]; reflexivity.
  - destruct s as [| c0 s].
    { destruct (is_ws_cases c Hc) as [-> | [-> | [-> | ->]]]; reflexivity. }
    cbn [length] in Hn. cbn [app scanstring].
    split_lists c.
    all: no_escape c Hc.
    all: destruct (is_ws_cases c Hc) as [-> | [-> | [-> | ->]]].
    all: decide_closed.
    all: split_tests.
    all: try reflexivity.
    all: try match goal with
           | |- scanstring _ ?a = extend _ (scanstring ?l ?a) =>
               apply (IH l a); cbn [length] in *; lia
           end.
    all: match goal with
         | H : decode_uXXXX ?h1 ?h2 ?h3 ?x = Some _ |- _ =>
             exfalso;
             rewrite (@decode_uXXXX_ws x h1 h2 h3 eq_refl) in H;
             discriminate H
         end.
Qed.

Lemma scanstring_snoc c s acc :
  is_ws c = true ->
  scanstring (s ++ [c]) acc = extend c (scanstring s acc).
Proof.
  intros Hc. eapply scanstring_snoc_upto; [exact Hc | apply le_n].
Qed.

Lemma match_integer_snoc c s :
  is_ws c = true ->
  match_integer (s ++ [c]) =
  match match_integer s with
  | Some (neg, int, r) => Some (neg, int, r ++ [c])
  | None => None
  end.
Proof.
  intros Hc. unfold match_integer.
  destruct s as [| x s]; cbn [app].
  - destruct (is_ws_cases c Hc) as [-> | [-> | [-> | ->]]]; reflexivity.
  - destruct (x =? ch "-")%N.
    + destruct s as [| y s]; cbn [app].
      * destruct (is_ws_cases c Hc) as [-> | [-> | [-> | ->]]]; reflexivity.
      * destruct (y =? ch "0")%N; [reflexivity |].
        destruct (is_digit y); [| reflexivity].
        rewrite (@span_digits_snoc c _ Hc).
        destruct (span_digits s); reflexivity.
    + destruct (x =? ch "0")%N; [reflexivity |].
      destruct (is_digit x); [| reflexivity].
      rewrite (@span_digits_snoc c _ Hc).
      destruct (span_digits s); reflexivity.
Qed.

Lemma match_frac_snoc c s :
  is_ws c = true ->
  match_frac (s ++ [c]) = extend c (match_frac s).
Proof.
  intros Hc. unfold match_frac.
  destruct s as [| x s]; cbn [app].
  - destruct (is_ws_cases c Hc) as [-> | [-> | [-> | ->]]]; reflexivity.
  - destruct (x =? ch ".")%N; [| reflexivity].
    rewrite (@span_digits_snoc c _ Hc).
    destruct (span_digits s) as [[| d0 d] r]; reflexivity.
Qed.

Lemma match_exp_snoc c s :
  is_ws c = true ->
  match_exp (s ++ [c]) = extend c (match_exp s).
Proof.
  intros Hc. unfold match_exp.
  destruct s as [| x s]; cbn [app].
  - destruct (is_ws_cases c Hc) as [-> | [-> | [-> | ->]]]; reflexivity.
  - destruct ((x =? ch "e") || (x =? ch "E"))%N; [| reflexivity].
    destruct s as [| sg s]; cbn [app].
    + destruct (is_ws_cases c Hc) as [-> | [-> | [-> | ->]]]; reflexivity.
    + destruct (sg =? ch "-")%N; [| destruct (sg =? ch "+")%N].
      * rewrite (@span_digits_snoc c _ Hc).
        destruct (span_digits s) as [[| d0 d] r]; reflexivity.
      * rewrite (@span_digits_snoc c _ Hc).
        destruct (span_digits s) as [[| d0 d] r]; reflexivity.
      * change (sg :: s ++ [c]) with ((sg :: s) ++ [c]).
        rewrite (@span_digits_snoc c _ Hc).
        destruct (span_digits (sg :: s)) as [[| d0 d] r]; reflexivity.
Qed.

Lemma match_number_snoc c s :
  is_ws c = true ->
  match_number (s ++ [c]) = extend c (match_number s).
Proof.
  intros Hc. unfold match_number.
  rewrite (@match_integer_snoc c _ Hc).
  destruct (match_integer s) as [[[neg int] r] |]; [| reflexivity].
  rewrite (@match_frac_snoc c _ Hc), (@match_exp_snoc c _ Hc).
  destruct (match_frac r) as [[frac r1] |]; cbn [extend].
  - rewrite (@match_exp_snoc c _ Hc).
    destruct (match_exp r) as [[e0 r0] |];
      destruct (match_exp r1) as [[e r2] |]; reflexivity.
  - destruct (match_exp r) as [[e r2] |]; reflexivity.
Qed.

Lemma startswith_snoc c s p :
  absent c p -> startswith (s ++ [c]) p = startswith s p.
Proof. intros H. apply (startswith_sep H s []). Qed.

Lemma skipn_snoc c s p :
  startswith s p = true ->
  skipn (length p) (s ++ [c]) = skipn (length p) s ++ [c].
Proof.
  intros H. apply startswith_length in H. rewrite skipn_app.
  replace (length p - length s) with 0 by lia. reflexivity.
Qed.

Lemma ws_absent c p :
  is_ws c = true -> forallb (fun y => negb (is_ws y)) p = true -> absent c p.
Proof.
  intros Hc. unfold absent. induction p as [| y p IH]; [reflexivity |].
  cbn [forallb]. intros H. apply andb_prop in H. destruct H as [Hy Hp].
  rewrite (IH Hp), andb_true_r.
  destruct (N.eqb_spec y c) as [-> |]; [| reflexivity].
  now rewrite Hc in Hy.
Qed.

Lemma scan_once_nil f : scan_once f [] = None.
Proof. destruct f; reflexivity. Qed.

Lemma scan_once_bom f s : scan_once f (65279%N :: s) = None.
Proof. destruct f; reflexivity. Qed.

Lemma array_items_nil f vs : array_items f [] vs = None.
Proof. destruct f; [reflexivity |]. cbn [array_items]. now rewrite scan_once_nil. Qed.

(** A literal that starts [s] is read the same with [c] appended. *)
Ltac literal c Hc :=
  match goal with
  | |- context [startswith (?s ++ [c]) (lit ?w)] =>
      rewrite (@startswith_snoc c s (lit w) (@ws_absent c (lit w) Hc eq_refl));
      let E := fresh "E" in
      destruct (startswith s (lit w)) eqn:E;
      [ cbn [extend]; do 2 f_equal; exact (@skipn_snoc c _ _ E) |]
  end.

Lemma descent_snoc c : is_ws c = true -> forall f,
  (forall s, scan_once f (s ++ [c]) = extend c (scan_once f s))
  /\ (forall s p, object_items f (s ++ [c]) p = extend c (object_items f s p))
  /\ (forall s vs, array_items f (s ++ [c]) vs = extend c (array_items f s vs)).
Proof.
  intros Hc. induction f as [| f (IHs & IHo & IHa)]; [repeat split |].
  repeat split.
  - intros [| x r].
    + destruct (is_ws_cases c Hc) as [-> | [-> | [-> | ->]]]; reflexivity.
    + cbn [app scan_once].
      change (x :: r ++ [c]) with ((x :: r) ++ [c]).
      destruct (x =? quote)%N.
      { rewrite (@scanstring_snoc c r [] Hc).
        destruct (scanstring r []) as [[t r'] |]; reflexivity. }
      destruct (x =? ch "{")%N.
      { rewrite (@skip_ws_snoc c r Hc).
        destruct (skip_ws r) as [| c1 r1]; [reflexivity |].
        destruct (c1 =? ch "}")%N; [reflexivity |].
        destruct (c1 =? quote)%N; [apply IHo | reflexivity]. }
      destruct (x =? ch "[")%N.
      { rewrite (@skip_ws_snoc c r Hc).
        destruct (skip_ws r) as [| c1 r1]; [reflexivity |].
        destruct (c1 =? ch "]")%N; [reflexivity |].
        apply (IHa (c1 :: r1)). }
      do 3 literal c Hc.
      rewrite (@match_number_snoc c _ Hc).
      destruct (match_number (x :: r)) as [[v r'] |]; [reflexivity |].
      do 3 literal c Hc.
      reflexivity.
  - intros s p. cbn [object_items].
    rewrite (@scanstring_snoc c s [] Hc).
    destruct (scanstring s []) as [[key r] |]; cbn [extend]; [| reflexivity].
    rewrite (@skip_ws_snoc c r Hc).
    destruct (skip_ws r) as [| c0 r1]; [reflexivity |].
    destruct (c0 =? ch ":")%N; [| reflexivity].
    rewrite (@skip_ws_snoc c r1 Hc).
    destruct (skip_ws r1) as [| y l]; [now rewrite scan_once_nil |].
    change (y :: l ++ [c]) with ((y :: l) ++ [c]).
    rewrite (IHs (y :: l)).
    destruct (scan_once f (y :: l)) as [[v r2] |]; cbn [extend]; [| reflexivity].
    rewrite (@skip_ws_snoc c r2 Hc).
    destruct (skip_ws r2) as [| c2 r3]; [reflexivity |].
    destruct (c2 =? ch "}")%N; [reflexivity |].
    destruct (c2 =? ch ",")%N; [| reflexivity].
    rewrite (@skip_ws_snoc c r3 Hc).
    destruct (skip_ws r3) as [| q0 r4]; [reflexivity |].
    destruct (q0 =? quote)%N; [apply IHo | reflexivity].
  - intros s vs. cbn [array_items].
    rewrite IHs.
    destruct (scan_once f s) as [[v r] |]; cbn [extend]; [| reflexivity].
    rewrite (@skip_ws_snoc c r Hc).
    destruct (skip_ws r) as [| c0 r1]; [reflexivity |].
    destruct (c0 =? ch "]")%N; [reflexivity |].
    destruct (c0 =? ch ",")%N; [| reflexivity].
    rewrite (@skip_ws_snoc c r1 Hc).
    destruct (skip_ws r1) as [| y l]; [now rewrite array_items_nil |].
    apply (IHa (y :: l)).
Qed.

(** With enough fuel the descent does not depend on the fuel. *)
Lemma scan_once_fuel f f' s :
  2 * length s <= f -> 2 * length s <= f' -> scan_once f s = scan_once f' s.
Proof.
  intros Hf Hf'.
  destruct (scan_once f s) as [[v r] |] eqn:E.
  - apply (proj1 (fuel_enough f)) in E.
    symmetry. eapply scan_once_mono; [| exact E]. exact Hf'.
  - destruct (scan_once f' s) as [[v r] |] eqn:E'; [| reflexivity].
    apply (proj1 (fuel_enough f')) in E'.
    rewrite (@scan_once_mono _ _ _ _ Hf E') in E. discriminate E.
Qed.

Lemma json_loads_ws_left c s :
  is_ws c = true -> json_loads (c :: s) = json_loads s.
Proof.
  intros Hc. unfold json_loads.
  assert (Hb : startswith (c :: s) [65279%N] = false)
    by (destruct (is_ws_cases c Hc) as [-> | [-> | [-> | ->]]]; reflexivity).
  rewrite Hb. cbn [skip_ws]. rewrite Hc.
  pose proof (skip_ws_length s) as L.
  rewrite (@scan_once_fuel (2 * length (c :: s) + 2) (2 * length s + 2))
    by (cbn [length]; lia).
  destruct (startswith s [65279%N]) eqn:Es; [| reflexivity].
  destruct s as [| x s]; [discriminate Es |].
  cbn [startswith] in Es. apply andb_prop in Es. destruct Es as [Es _].
  apply N.eqb_eq in Es. subst x.
  change (skip_ws (65279%N :: s)) with (65279%N :: s).
  now rewrite scan_once_bom.
Qed.

Lemma json_loads_ws_right c s :
  is_ws c = true -> json_loads (s ++ [c]) = json_loads s.
Proof.
  intros Hc. unfold json_loads.
  assert (Hb : absent c [65279%N])
    by (destruct (is_ws_cases c Hc) as [-> | [-> | [-> | ->]]]; reflexivity).
  rewrite (@startswith_snoc c s _ Hb).
  destruct (startswith s [65279%N]); [reflexivity |].
  rewrite (@skip_ws_snoc c s Hc).
  pose proof (skip_ws_length s) as L.
  destruct (skip_ws s) as [| y l]; [now rewrite !scan_once_nil |].
  change (y :: l ++ [c]) with ((y :: l) ++ [c]).
  rewrite (proj1 (@descent_snoc c Hc _) (y :: l)).
  rewrite (@scan_once_fuel (2 * length (s ++ [c]) + 2) (2 * length s + 2))
    by (rewrite ?length_app; cbn [length] in *; lia).
  destruct (scan_once (2 * length s + 2) (y :: l)) as [[v r] |];
    cbn [extend]; [| reflexivity].
  rewrite (@skip_ws_snoc c r Hc).
  destruct (skip_ws r); reflexivity.
Qed.

End Trailing.

(** X14.  A response wrapped in a [json] fence is parsed to the same value as
    the response alone, whatever the response is. *)
Theorem fenced_response_parses_like_payload p :
  parse_llm_json_output (Scenario.fenced p) = parse_llm_json_output p.
Proof.
  unfold parse_llm_json_output. rewrite strip_fences_fenced.
  change (nl ++ strip_fences p ++ nl)
    with (10%N :: (strip_fences p ++ [10%N])).
  now rewrite (@json_loads_ws_left 10%N _ eq_refl),
              (@json_loads_ws_right 10%N _ eq_refl).
Qed.

Section BlankSpace.

Lemma strip_fences_ws_left c t :
  is_ws c = true -> strip_fences (c :: t) = c :: strip_fences t.
Proof.
  intros Hc. unfold strip_fences.
  pose proof (@replace_sep c (lit "json") [] [] t ltac:(discriminate)
                (@ws_absent c (lit "json") Hc eq_refl)) as E1.
  change (replace (lit "json") [] []) with (@nil char) in E1.
  cbn [app] in E1. rewrite E1.
  pose proof (@replace_sep c (lit "```") [] [] (replace (lit "json") [] t)
                ltac:(discriminate)
                (@ws_absent c (lit "```") Hc eq_refl)) as E2.
  change (replace (lit "```") [] []) with (@nil char) in E2.
  cbn [app] in E2. exact E2.
Qed.

Lemma strip_fences_ws_right c t :
  is_ws c = true -> strip_fences (t ++ [c]) = strip_fences t ++ [c].
Proof.
  intros Hc. unfold strip_fences.
  rewrite (@replace_sep c (lit "json") [] t [] ltac:(discriminate)
             (@ws_absent c (lit "json") Hc eq_refl)).
  change (replace (lit "json") [] []) with (@nil char).
  rewrite (@replace_sep c (lit "```") [] (replace (lit "json") [] t) []
             ltac:(discriminate) (@ws_absent c (lit "```") Hc eq_refl)).
  reflexivity.
Qed.

Lemma parse_ws_left c t :
  is_ws c = true -> parse_llm_json_output (c :: t) = parse_llm_json_output t.
Proof.
  intros Hc. unfold parse_llm_json_output.
  now rewrite (@strip_fences_ws_left c t Hc), (@json_loads_ws_left c _ Hc).
Qed.

Lemma parse_ws_right c t :
  is_ws c = true -> parse_llm_json_output (t ++ [c]) = parse_llm_json_output t.
Proof.
  intros Hc. unfold parse_llm_json_output.
  now rewrite (@strip_fences_ws_right c t Hc), (@json_loads_ws_right c _ Hc).
Qed.

End BlankSpace.

(** X15.  Spaces, tabs, line feeds and carriage returns before and after a
    response do not change the value it is parsed to. *)
Theorem surrounding_whitespace_is_ignored before after text :
  forallb is_ws before = true ->
  forallb is_ws after = true ->
  parse_llm_json_output (before ++ text ++ after) = parse_llm_json_output text.
Proof.
  intros Hb Ha. induction before as [| c before IH]; cbn [app].
  - clear Hb. induction after as [| c after IH] using rev_ind.
    + now rewrite app_nil_r.
    + rewrite forallb_app in Ha. apply andb_prop in Ha. destruct Ha as [Ha Hc].
      cbn [forallb] in Hc. rewrite andb_true_r in Hc.
      rewrite app_assoc, (@parse_ws_right c _ Hc). exact (IH Ha).
  - cbn [forallb] in Hb. apply andb_prop in Hb. destruct Hb as [Hc Hb].
    rewrite (@parse_ws_left c _ Hc). exact (IH Hb).
Qed.

(** ** The response handler within the limits of the interpreter *)
Section InterpreterLimits.

Variable I : interpreter.

Lemma match_number_in_agrees s : agrees (match_number_in I s) (match_number s).
Proof.
  unfold match_number_in.
  destruct (match_number s) as [[v r] |]; [| reflexivity].
  destruct v; try reflexivity.
  destruct (match_integer s) as [[[neg int] r0] |]; [| reflexivity].
  destruct (too_many_digits I int); reflexivity.
Qed.

Lemma match_number_in_finished s : match_number_in I s <> Unfinished.
Proof.
  unfold match_number_in.
  destruct (match_number s) as [[v r] |]; [| discriminate].
  destruct v; try discriminate.
  destruct (match_integer s) as [[[neg int] r0] |]; [| discriminate].
  destruct (too_many_digits I int); discriminate.
Qed.

(** One step of the comparison of the two descents. *)
Ltac agree_step f IHs IHo IHa :=
  match goal with
  | |- agrees (object_items_in I f ?d ?s ?p) (object_items f ?s ?p) =>
      exact (IHo d s p)
  | |- agrees (array_items_in I f ?d ?s ?p) (array_items f ?s ?p) =>
      exact (IHa d s p)
  | |- agrees (match scan_once_in I f ?d ?s with _ => _ end) _ =>
      let H := fresh "H" in
      pose proof (IHs d s) as H;
      destruct (scan_once_in I f d s); cbn [agrees] in H;
      try rewrite H; cbv beta iota
  | |- agrees (match match_number_in I ?s with _ => _ end) _ =>
      let H := fresh "H" in
      let U := fresh "U" in
      pose proof (match_number_in_agrees s) as H;
      pose proof (match_number_in_finished s) as U;
      destruct (match_number_in I s); cbn [agrees] in H;
      [ | | | now destruct U ];
      try rewrite H; cbv beta iota
  | |- agrees (match ?x with _ => _ end) _ =>
      lazymatch x with
      | context [match _ with _ => _ end] => fail
      | _ => destruct x
      end
  | |- agrees (if ?x then _ else _) _ => destruct x
  | |- agrees _ _ => cbn [agrees]; trivial
  end.

Lemma descent_agrees : forall f,
  (forall d s, agrees (scan_once_in I f d s) (scan_once f s))
  /\ (forall d s p, agrees (object_items_in I f d s p) (object_items f s p))
  /\ (forall d s vs, agrees (array_items_in I f d s vs) (array_items f s vs)).
Proof.
  induction f as [| f (IHs & IHo & IHa)]; [repeat split |].
  repeat split.
  - intros d s. cbn [scan_once_in scan_once].
    repeat agree_step f IHs IHo IHa.
  - intros d s p. cbn [object_items_in object_items].
    repeat agree_step f IHs IHo IHa.
  - intros d s vs. cbn [array_items_in array_items].
    repeat agree_step f IHs IHo IHa.
Qed.

Lemma scan_once_in_shorter f d s v r :
  scan_once_in I f d s = Scanned v r -> length r < length s.
Proof.
  intros H. pose proof (proj1 (descent_agrees f) d s) as A.
  rewrite H in A. exact (proj1 (descent_shorter f) _ _ _ A).
Qed.

(** Turn what is known of the scanners into facts on lengths. *)
Ltac lengths :=
  repeat match goal with
    | H : skip_ws ?x = _ |- _ =>
        let L := fresh "L" in
        pose proof (skip_ws_length x) as L; rewrite H in L; clear H
    | H : scanstring ?x _ = Some _ |- _ =>
        apply scanstring_shorter in H
    | H : scan_once_in I _ _ _ = Scanned _ _ |- _ =>
        apply scan_once_in_shorter in H
    end;
  repeat match goal with
    | H : context [length (skip_ws ?x)] |- _ =>
        lazymatch goal with
        | _ : length (skip_ws x) <= length x |- _ => fail
        | _ => pose proof (skip_ws_length x)
        end
    | |- context [length (skip_ws ?x)] =>
        lazymatch goal with
        | _ : length (skip_ws x) <= length x |- _ => fail
        | _ => pose proof (skip_ws_length x)
        end
    end;
  cbn [length] in *; lia.

Ltac finish_step f IHs IHo IHa :=
  match goal with
  | |- object_items_in I f _ _ _ <> Unfinished => apply IHo; lengths
  | |- array_items_in I f _ _ _ <> Unfinished => apply IHa; lengths
  | |- match scan_once_in I f ?d ?s with _ => _ end <> Unfinished =>
      let E := fresh "E" in
      destruct (scan_once_in I f d s) eqn:E;
      [ | | | exfalso; revert E; apply IHs; lengths ]
  | |- match match_number_in I ?s with _ => _ end <> Unfinished =>
      let U := fresh "U" in
      pose proof (match_number_in_finished s) as U;
      destruct (match_number_in I s); [ | | | now destruct U ]
  | |- match ?x with _ => _ end <> Unfinished =>
      lazymatch x with
      | context [match _ with _ => _ end] => fail
      | _ => destruct x eqn:?
      end
  | |- (if ?x then _ else _) <> Unfinished => destruct x eqn:?
  | |- _ <> Unfinished => discriminate
  end.

(** With the fuel of [json_loads_in] the descent always gives an answer. *)
Lemma descent_finished : forall f,
  (forall d s, 2 * length s + 1 <= f -> scan_once_in I f d s <> Unfinished)
  /\ (forall d s p,
        2 * length s + 2 <= f -> object_items_in I f d s p <> Unfinished)
  /\ (forall d s vs,
        2 * length s + 2 <= f -> array_items_in I f d s vs <> Unfinished).
Proof.
  induction f as [| f (IHs & IHo & IHa)]; [repeat split; intros; lia |].
  repeat split.
  - intros d s Hf. cbn [scan_once_in].
    repeat finish_step f IHs IHo IHa.
  - intros d s p Hf. cbn [object_items_in].
    repeat finish_step f IHs IHo IHa.
  - intros d s vs Hf. cbn [array_items_in].
    repeat finish_step f IHs IHo IHa.
Qed.

Lemma json_loads_in_agrees s :
  match json_loads_in I s with
  | Scanned v _ => json_loads s = Some v
  | Rejected => json_loads s = None
  | Escaped _ => True
  | Unfinished => False
  end.
Proof.
  unfold json_loads_in, json_loads.
  destruct (startswith s [65279%N]); [reflexivity |].
  pose proof (proj1 (descent_agrees (2 * length s + 2))
                (recursion_budget I) (skip_ws s)) as A.
  pose proof (proj1 (descent_finished (2 * length s + 2))
                (recursion_budget I) (skip_ws s)) as U.
  destruct (scan_once_in I (2 * length s + 2) (recursion_budget I) (skip_ws s))
    as [v r | | e |]; cbn [agrees] in A.
  - rewrite A. destruct (skip_ws r); reflexivity.
  - now rewrite A.
  - exact Logic.I.
  - apply U; [| reflexivity]. pose proof (skip_ws_length s). lia.
Qed.

(** The call always gives an answer. *)
Lemma parse_llm_json_output_in_total text :
  parse_llm_json_output_in I text <> None.
Proof.
  unfold parse_llm_json_output_in.
  pose proof (json_loads_in_agrees (strip_fences text)) as A.
  destruct (json_loads_in I (strip_fences text)); [discriminate .. | destruct A].
Qed.

(** What the call returns is what the decoder without limits gives. *)
Lemma parse_llm_json_output_in_returns text v :
  parse_llm_json_output_in I text = Some (Ok v) ->
  parse_llm_json_output text = v.
Proof.
  unfold parse_llm_json_output_in, parse_llm_json_output.
  pose proof (json_loads_in_agrees (strip_fences text)) as A.
  destruct (json_loads_in I (strip_fences text)) as [v0 r | | e |];
    try discriminate.
  - rewrite A. intros H. now inversion H.
  - rewrite A. destruct (print_failure I (strip_fences text));
      [discriminate | intros H; now inversion H].
Qed.

Lemma brackets_rejected : forall f n,
  scan_once f (repeat (ch "[") n) = None
  /\ forall vs, array_items f (repeat (ch "[") n) vs = None.
Proof.
  induction f as [| f IH]; [split; reflexivity |].
  intros n. split.
  - destruct n as [| [| n]]; [reflexivity | reflexivity |].
    exact (proj2 (IH (S n)) []).
  - intros vs. cbn [array_items]. now rewrite (proj1 (IH n)).
Qed.

Lemma brackets_escape : forall d n f,
  d < n -> 2 * n + 1 <= f ->
  scan_once_in I f d (repeat (ch "[") n) = Escaped RecursionError.
Proof.
  induction d as [| d IH]; intros n f Hd Hf.
  - destruct n as [| n]; [lia |]. destruct f as [| f]; [lia |]. reflexivity.
  - destruct n as [| [| n]]; [lia | lia |].
    destruct f as [| [| f]]; [lia | cbn [length] in Hf; lia |].
    change (scan_once_in I (S (S f)) (S d) (repeat (ch "[") (S (S n))))
      with (match scan_once_in I f d (repeat (ch "[") (S n)) with
            | Scanned v r =>
                match skip_ws r with
                | c :: r1 =>
                    if (c =? ch "]")%N then Scanned (VList (rev [v])) r1
                    else if (c =? ch ",")%N
                    then array_items_in I f d (skip_ws r1) [v]
                    else Rejected
                | [] => Rejected
                end
            | other => other
            end).
    rewrite IH by lia. reflexivity.
Qed.

Lemma json_loads_brackets n : json_loads (repeat (ch "[") n) = None.
Proof.
  unfold json_loads. destruct n as [| n]; [reflexivity |].
  change (startswith (repeat (ch "[") (S n)) [65279%N]) with false.
  change (skip_ws (repeat (ch "[") (S n))) with (repeat (ch "[") (S n)).
  now rewrite (proj1 (brackets_rejected _ (S n))).
Qed.

Lemma json_loads_in_brackets :
  json_loads_in I (repeat (ch "[") (S (recursion_budget I)))
  = Escaped RecursionError.
Proof.
  unfold json_loads_in.
  change (startswith (repeat (ch "[") (S (recursion_budget I))) [65279%N])
    with false.
  change (skip_ws (repeat (ch "[") (S (recursion_budget I))))
    with (repeat (ch "[") (S (recursion_budget I))).
  cbv beta iota.
  rewrite brackets_escape; [reflexivity | lia |].
  rewrite repeat_length. lia.
Qed.

Lemma match_number_in_limit s : limit_error (match_number_in I s).
Proof.
  unfold match_number_in.
  destruct (match_number s) as [[v r] |]; [| exact Logic.I].
  destruct v; try exact Logic.I.
  destruct (match_integer s) as [[[neg int] r0] |]; [| exact Logic.I].
  destruct (too_many_digits I int); [now right | exact Logic.I].
Qed.

Ltac limit_step f IHs IHo IHa :=
  match goal with
  | |- limit_error (object_items_in I f ?d ?s ?p) => exact (IHo d s p)
  | |- limit_error (array_items_in I f ?d ?s ?p) => exact (IHa d s p)
  | |- limit_error (match scan_once_in I f ?d ?s with _ => _ end) =>
      let H := fresh "H" in
      pose proof (IHs d s) as H;
      destruct (scan_once_in I f d s); cbv beta iota
  | |- limit_error (match match_number_in I ?s with _ => _ end) =>
      let H := fresh "H" in
      pose proof (match_number_in_limit s) as H;
      destruct (match_number_in I s); cbv beta iota
  | |- limit_error (match ?x with _ => _ end) =>
      lazymatch x with
      | context [match _ with _ => _ end] => fail
      | _ => destruct x
      end
  | |- limit_error (if ?x then _ else _) => destruct x
  | |- limit_error _ => cbn [limit_error] in *; auto
  end.

(** The decoder is left by the two errors of the limits only. *)
Lemma descent_limit_errors : forall f,
  (forall d s, limit_error (scan_once_in I f d s))
  /\ (forall d s p, limit_error (object_items_in I f d s p))
  /\ (forall d s vs, limit_error (array_items_in I f d s vs)).
Proof.
  induction f as [| f (IHs & IHo & IHa)]; [repeat split |].
  repeat split.
  - intros d s. cbn [scan_once_in]. repeat limit_step f IHs IHo IHa.
  - intros d s p. cbn [object_items_in]. repeat limit_step f IHs IHo IHa.
  - intros d s vs. cbn [array_items_in]. repeat limit_step f IHs IHo IHa.
Qed.

Lemma json_loads_in_limit_errors s : limit_error (json_loads_in I s).
Proof.
  unfold json_loads_in.
  destruct (startswith s [65279%N]); [exact Logic.I |].
  pose proof (proj1 (descent_limit_errors (2 * length s + 2))
                (recursion_budget I) (skip_ws s)) as H.
  destruct (scan_once_in I (2 * length s + 2) (recursion_budget I) (skip_ws s));
    try exact H.
  destruct (skip_ws rest); exact Logic.I.
Qed.

(** A text made of one character that starts neither the word nor the
    mark. *)
Lemma repeat_unmarked (c : char) n :
  (c =? ch "j")%N = false -> (c =? ch "`")%N = false ->
  strip_fences (repeat c n) = repeat c n.
Proof.
  intros Hj Hq.
  assert (H : forall w p, (c =? w)%N = false ->
                          contains (w :: p) (repeat c n) = false).
  { intros w p Hw. induction n as [| n IH]; [reflexivity |].
    cbn [repeat contains startswith]. now rewrite Hw, IH. }
  unfold strip_fences.
  rewrite (@replace_absent (lit "json") [] (repeat c n));
    [| discriminate | now apply H].
  apply replace_absent; [discriminate | now apply H].
Qed.

Lemma span_digits_ones n :
  span_digits (repeat (ch "1") n) = (repeat (ch "1") n, []).
Proof.
  induction n as [| n IH]; [reflexivity |].
  cbn [repeat span_digits]. change (is_digit (ch "1")) with true.
  cbv beta iota. now rewrite IH.
Qed.

Lemma match_integer_ones m :
  match_integer (repeat (ch "1") (S m))
  = Some (false, repeat (ch "1") (S m), []).
Proof.
  unfold match_integer. cbn [repeat].
  change (ch "1" =? ch "-")%N with false. cbv beta iota zeta.
  change (ch "1" =? ch "0")%N with false.
  change (is_digit (ch "1")) with true. cbv beta iota.
  now rewrite span_digits_ones.
Qed.

Lemma match_number_in_ones n m :
  int_max_str_digits I = Some n ->
  match_number_in I (repeat (ch "1") (S m)) =
  if (n <? S m)%nat then Escaped ValueError
  else Scanned (VInt (Z.of_N (digits_value (repeat (ch "1") (S m))))) [].
Proof.
  intros Hn. unfold match_number_in, match_number.
  rewrite match_integer_ones. cbn [match_frac match_exp].
  unfold too_many_digits. rewrite Hn, repeat_length. reflexivity.
Qed.

Lemma json_loads_in_ones n m :
  int_max_str_digits I = Some n -> n < m ->
  json_loads_in I (repeat (ch "1") m) = Escaped ValueError.
Proof.
  intros Hn Hm. destruct m as [| m]; [lia |].
  unfold json_loads_in.
  change (startswith (repeat (ch "1") (S m)) [65279%N]) with false.
  change (skip_ws (repeat (ch "1") (S m))) with (repeat (ch "1") (S m)).
  cbv beta iota.
  replace (2 * length (repeat (ch "1") (S m)) + 2)
    with (S (2 * length (repeat (ch "1") (S m)) + 1)) by lia.
  cbn [scan_once_in repeat].
  change (ch "1" =? quote)%N with false.
  change (ch "1" =? ch "{")%N with false.
  change (ch "1" =? ch "[")%N with false.
  change (startswith (ch "1" :: repeat (ch "1") m) (lit "null")) with false.
  change (startswith (ch "1" :: repeat (ch "1") m) (lit "true")) with false.
  change (startswith (ch "1" :: repeat (ch "1") m) (lit "false")) with false.
  cbv beta iota.
  change (ch "1" :: repeat (ch "1") m) with (repeat (ch "1") (S m)).
  rewrite (@match_number_in_ones n m Hn).
  apply Nat.ltb_lt in Hm. now rewrite Hm.
Qed.

End InterpreterLimits.

(** C8.  The handler of [parse_llm_json_output] catches the
    [JSONDecodeError] alone.  A text of opening brackets, one more than the
    interpreter lets the decoder enter, is malformed, and the call does not
    return [None] on it: the [RecursionError] of [json.loads] leaves the
    function.  On [not json] the call returns [None] when the [print] of the
    handler succeeds, and is left by the exception of [print] otherwise. *)
Theorem deep_nesting_escapes_the_handler (I : interpreter) :
  let text := repeat (ch "[") (S (recursion_budget I)) in
  json_loads text = None
  /\ parse_llm_json_output_in I text = Some (Raise RecursionError)
  /\ parse_llm_json_output_in I (lit "not json") =
     Some (match print_failure I (lit "not ") with
           | Some e => Raise e
           | None => Ok VNone
           end).
Proof.
  intros text. split; [| split].
  - apply json_loads_brackets.
  - unfold parse_llm_json_output_in. subst text. cbv zeta.
    rewrite repeat_unmarked by reflexivity.
    now rewrite json_loads_in_brackets.
  - reflexivity.
Qed.

(** X16.  What [parse_llm_json_output] does, in every interpreter.  When it
    returns, it returns the value the decoder without limits gives for the
    stripped text, [None] where that decoder rejects it.  When an exception
    leaves it, the exception is the [RecursionError] or the [ValueError] of
    [json.loads], or the one [print] raised in the handler of a
    [JSONDecodeError].  The fuel of the model never runs out. *)
Theorem only_limits_and_print_leave_the_handler (I : interpreter) text :
  match parse_llm_json_output_in I text with
  | Some (Ok v) => parse_llm_json_output text = v
  | Some (Raise e) =>
      (json_loads_in I (strip_fences text) = Escaped e
       /\ (e = RecursionError \/ e = ValueError))
      \/ (json_loads (strip_fences text) = None
          /\ print_failure I (strip_fences text) = Some e)
  | None => False
  end.
Proof.
  unfold parse_llm_json_output_in, parse_llm_json_output.
  pose proof (json_loads_in_agrees I (strip_fences text)) as A.
  pose proof (json_loads_in_limit_errors I (strip_fences text)) as L.
  destruct (json_loads_in I (strip_fences text)) as [v r | | e |].
  - now rewrite A.
  - rewrite A. destruct (print_failure I (strip_fences text)) as [e |];
      [right; now split | reflexivity].
  - left. now split.
  - exact A.
Qed.

(** X17.  An integer literal with more digits than the interpreter converts
    makes [json.loads] raise a [ValueError], which is no [JSONDecodeError]:
    it leaves [parse_llm_json_output]. *)
Theorem long_integer_escapes_the_handler (I : interpreter) n m :
  int_max_str_digits I = Some n ->
  n < m ->
  parse_llm_json_output_in I (repeat (ch "1") m) = Some (Raise ValueError).
Proof.
  intros Hn Hm. unfold parse_llm_json_output_in. cbv zeta.
  rewrite repeat_unmarked by reflexivity.
  now rewrite (@json_loads_in_ones I n m Hn Hm).
Qed.

(** * Runs on the scripted environment *)
Module Runs.

Import Scenario.

(** ** A typed document *)

(** [a.docx] has 56 characters of direct text: no OCR. *)
Lemma usable_direct_text_skips_ocr_witness :
  resolve_text env0 false (lit "a.docx.pdf") a_converted
  = (Ok (Some long_text), a_read).
Proof.
  refine (proj1 (@usable_direct_text_skips_ocr _ _ env0 (lit "a.docx") a_start
                   (lit "a.docx.pdf") a_converted long_text a_read _ _ _ _)).
  - vm_compute; reflexivity.
  - reflexivity.
  - vm_compute; reflexivity.
  - vm_compute; lia.
Defined.

(** ** A scan without a text layer, read by OCR *)

(** [scan.docx] has no direct text: both pages are read by OCR, in order. *)
Lemma fallback_ocr_every_page_in_order_witness :
  resolve_text env0 false (lit "scan.docx.pdf") scan_start
  = (Ok (Some (page_one ++ nl ++ nl ++ page_two ++ nl ++ nl)),
     snd (page_results env0 [lit "page-1"; lit "page-2"] scan_rasterized)).
Proof.
  pose proof (@fallback_ocr_every_page_in_order _ _ env0 (lit "scan.docx.pdf")
                scan_start [] scan_read [lit "page-1"; lit "page-2"]
                scan_rasterized) as H.
  refine (proj1 (H _ _ _ _)).
  - vm_compute; reflexivity.
  - vm_compute; lia.
  - vm_compute; reflexivity.
  - discriminate.
Defined.

(** ** A scan whose text layer is a page label *)

(** [stamp.docx] has six characters of direct text, kept in front of the
    text of its page. *)
Lemma fallback_keeps_direct_text_witness :
  resolve_text env0 false (lit "stamp.docx.pdf") stamp_converted
  = (Ok (Some (lit "Page 1" ++ page_one ++ nl ++ nl)),
     snd (page_results env0 [lit "page-1"] stamp_rasterized)).
Proof.
  pose proof (@fallback_keeps_direct_text _ _ env0 (lit "stamp.docx")
                stamp_start (lit "stamp.docx.pdf") stamp_converted
                (lit "Page 1") stamp_read [lit "page-1"] stamp_rasterized) as H.
  refine (proj1 (H _ _ _ _ _ _)).
  - vm_compute; reflexivity.
  - reflexivity.
  - vm_compute; reflexivity.
  - vm_compute; lia.
  - vm_compute; reflexivity.
  - discriminate.
Defined.

(** C4, the claim as stated fails.  [stamp.docx] has six characters of direct
    text and one page, whose OCR text is [page_one].  The resolved text is
    not made of the OCR results with blank lines between them: the direct
    text comes first, and a blank line follows the text of the last page. *)
Lemma fallback_text_is_not_the_ocr_results_alone :
  fst (pdf_to_text env0 (lit "stamp.docx.pdf") stamp_converted)
  = Ok (lit "Page 1")
  /\ length (lit "Page 1") < 50
  /\ fst (pdf_to_images env0 (lit "stamp.docx.pdf") stamp_read)
     = Ok [lit "page-1"]
  /\ fst (page_results env0 [lit "page-1"] stamp_rasterized) = [page_one]
  /\ separated_by_blank_lines [page_one] = page_one
  /\ fst (resolve_text env0 false (lit "stamp.docx.pdf") stamp_converted)
     = Ok (Some (lit "Page 1" ++ page_one ++ nl ++ nl))
  /\ lit "Page 1" ++ page_one ++ nl ++ nl
     <> separated_by_blank_lines [page_one]
  /\ page_one ++ nl ++ nl <> separated_by_blank_lines [page_one].
Proof.
  split; [vm_compute; reflexivity |].
  split; [vm_compute; lia |].
  split; [vm_compute; reflexivity |].
  split; [vm_compute; reflexivity |].
  split; [reflexivity |].
  split; [vm_compute; reflexivity |].
  split; vm_compute; discriminate.
Qed.

(** C9, the claim as stated fails.  Without forced OCR, the one page of
    [stamp.docx] is sent to OCR and the backend answers with an empty text;
    every OCR call has then yielded empty text, yet the document is not
    skipped: its short direct text goes to structured extraction and the
    document is reported. *)
Lemma short_direct_text_survives_empty_ocr :
  fst (pdf_to_text env0 (lit "stamp.docx.pdf") mute_converted)
  = Ok (lit "Page 1")
  /\ fst (pdf_to_images env0 (lit "stamp.docx.pdf") mute_read)
     = Ok [lit "page-1"]
  /\ fst (page_results env0 [lit "page-1"] mute_rasterized) = [[]]
  /\ fst (main env0 false [lit "stamp.docx"] mute_start)
     = Ok (Some [good_report "stamp.docx"]).
Proof.
  split; [vm_compute; reflexivity |].
  split; [vm_compute; reflexivity |].
  split; vm_compute; reflexivity.
Qed.

(** ** A scan under forced OCR, with an OCR backend that returns nothing *)

(** Both pages come back empty: the document is skipped. *)
Lemma ocr_path_without_text_witness :
  process_document env0 true (lit "scan.docx") blank_start
  = (Ok None,
     removed env0 (lit "scan.docx.pdf")
       (snd (page_results env0 [lit "page-1"; lit "page-2"] blank_rasterized))).
Proof.
  pose proof (@ocr_path_without_text _ _ env0 true (lit "scan.docx")
                blank_start (lit "scan.docx.pdf") blank_converted []
                blank_converted [lit "page-1"; lit "page-2"]
                blank_rasterized) as H.
  refine (proj1 (proj2 (H _ _ _ _ _)) _ _).
  - vm_compute; reflexivity.
  - reflexivity.
  - split; reflexivity.
  - vm_compute; reflexivity.
  - vm_compute; repeat constructor.
  - discriminate.
  - reflexivity.
Defined.

(** ** Failed OCR requests *)

(** With no backend to answer, the request of the first page is refused. *)
Lemma failed_ocr_page_contributes_placeholder_witness :
  ocr_pages env0 [lit "page-1"] [] (start [])
  = (Ok (lit "Simulated OCR text due to API failure: connection refused"
         ++ nl ++ nl),
     {| world := [];
        trace := [EvPost (ocr_payload env0 (lit "page-1"))] |}).
Proof.
  refine (proj2 (@failed_ocr_page_contributes_placeholder _ _ env0
                   (lit "page-1") [] (start []) (lit "connection refused")
                   [] _)).
  reflexivity.
Defined.

(** Both OCR requests of [scan.docx] time out, and the backend recovers for
    the text requests: the document is not skipped, the text sent to
    structured extraction is the placeholder twice over, and a report is
    written. *)
Example ocr_outage_still_reported :
  fst (resolve_text env0 true (lit "scan.docx.pdf")
         (snd (convert_docx_to_pdf env0 (lit "scan.docx") (start outage))))
  = Ok (Some outage_text)
  /\ In (EvPost (text_payload (extraction_messages outage_text)))
        (trace (snd (main env0 true [lit "scan.docx"] (start outage))))
  /\ fst (main env0 true [lit "scan.docx"] (start outage))
     = Ok (Some [good_report "scan.docx"]).
Proof.
  split; [vm_compute; reflexivity |].
  split; [| vm_compute; reflexivity].
  vm_compute. do 5 right. left. reflexivity.
Qed.

(** ** Structured records *)

(** The record of [a.docx] has no captions key: the document is skipped. *)
Lemma missing_captions_skip_document_witness :
  extract_and_report env0 (lit "a.docx") (lit "a.docx.pdf") long_text
    {| world := [Content no_captions_text]; trace := [] |}
  = (Ok None,
     snd (extract_structured_ru_data env0 long_text
            (removed env0 (lit "a.docx.pdf")
               {| world := [Content no_captions_text]; trace := [] |}))).
Proof.
  refine (proj1 (@missing_captions_skip_document _ _ env0 (lit "a.docx")
                   (lit "a.docx.pdf") long_text
                   {| world := [Content no_captions_text]; trace := [] |}
                   (VDict [(lit "patient_id", VStr (lit "17"))]) _ _ _ _)).
  - vm_compute; discriminate.
  - vm_compute; reflexivity.
  - right. eexists; split; reflexivity.
Defined.

(** C5, the claim as stated fails.  The structured record of [a.docx] holds a
    captions mapping that is present and empty; the document is not skipped,
    and its report, with the empty mapping, is written. *)
Lemma empty_captions_reach_output :
  parse_llm_json_output empty_captions_text
  = VDict [(lit "patient_id", VStr (lit "17")); (lit "captions_ru", VDict [])]
  /\ fst (main env0 false [lit "a.docx"]
            (start [Content empty_captions_text; Content note_text;
                    Content note_text]))
     = Ok (Some [ {| source_file := lit "a.docx";
                     patient_group := NA;
                     patient_id := VStr (lit "17");
                     age := NA;
                     gender := NA;
                     captions_ru := VDict [];
                     captions_en := note;
                     captions_kz := note |} ]).
Proof. split; vm_compute; reflexivity. Qed.



(** ** The batch *)

(** Three documents, the second of which fails conversion: the reports of the
    first and the third, in that order. *)
Example three_documents_middle_fails_conversion :
  fst (main env0 false [lit "a.docx"; lit "broken.docx"; lit "c.docx"]
         (start (good_answers ++ good_answers)))
  = Ok (Some [good_report "a.docx"; good_report "c.docx"]).
Proof. vm_compute; reflexivity. Qed.

(** C1.  The model answers the extraction request of [a.docx] with the JSON
    number 1.  The answer parses, is truthy and is no container, so the
    membership test of [main] raises a [TypeError] that nothing catches:
    the batch ends there and nothing is written, although [c.docx], processed
    alone with the same answers, gives its report. *)
Theorem batch_aborted_by_non_object_answer :
  parse_llm_json_output (lit "1") = VInt 1
  /\ fst (main env0 false [lit "a.docx"; lit "c.docx"]
            (start (Content (lit "1") :: good_answers)))
     = Raise TypeError
  /\ fst (main env0 false [lit "c.docx"] (start good_answers))
     = Ok (Some [good_report "c.docx"]).
Proof.
  split; [vm_compute; reflexivity |].
  split; vm_compute; reflexivity.
Qed.

(** The same with an answer that is a JSON string holding the record: the
    substring test passes and [get] raises an [AttributeError]. *)
Example batch_aborted_by_quoted_answer :
  fst (main env0 false [lit "a.docx"; lit "c.docx"]
         (start (Content (q "captions_ru: none") :: good_answers)))
  = Raise AttributeError.
Proof. vm_compute; reflexivity. Qed.

(** ** Fences *)

(** C7.  The handler removes every occurrence of [json] and of the triple
    backquote, inside the payload too: the valid payload that maps [format]
    to the string [json] is decoded, fenced or not, with an empty string in
    its place. *)
Theorem fence_stripping_alters_payload :
  json_loads format_text = Some (VDict [(lit "format", VStr (lit "json"))])
  /\ strip_fences format_text = lit "{" ++ q "format" ++ lit ": " ++ dq ++ dq ++ lit "}"
  /\ parse_llm_json_output format_text = VDict [(lit "format", VStr [])]
  /\ parse_llm_json_output (fenced format_text)
     = VDict [(lit "format", VStr [])].
Proof.
  split; [vm_compute; reflexivity |].
  split; [vm_compute; reflexivity |].
  split; vm_compute; reflexivity.
Qed.

(** A fenced payload that holds neither word is decoded as it is. *)
Example fenced_record_is_decoded :
  json_loads record_text = Some (parse_llm_json_output (fenced record_text))
  /\ parse_llm_json_output (fenced en_text) = en.
Proof. split; vm_compute; reflexivity. Qed.

(** ** The limits of the interpreter *)

(** With room for two containers, a third opening bracket ends the call with
    a [RecursionError], in a text that is malformed and in one that is
    well-formed; two nested arrays are decoded, and [not json] gives
    [None]. *)
Example third_bracket_raises :
  parse_llm_json_output_in shallow (lit "[[[") = Some (Raise RecursionError)
  /\ parse_llm_json_output (lit "[[[") = VNone
  /\ parse_llm_json_output_in shallow (lit "[[[1]]]")
     = Some (Raise RecursionError)
  /\ parse_llm_json_output_in shallow (lit "[[1]]")
     = Some (Ok (VList [VList [VInt 1]]))
  /\ parse_llm_json_output_in shallow (lit "not json") = Some (Ok VNone).
Proof. repeat split; vm_compute; reflexivity. Qed.

End Runs.

(** * More runs on the scripted environment *)
Module Cases.

Import Scenario.

(** ** Conversion *)

(** The converter rejects [broken.docx]: one call, and the document is
    skipped. *)
Lemma failed_conversion_makes_no_other_call_witness :
  process_document env0 false (lit "broken.docx") a_start
  = (Ok None,
     {| world := good_answers; trace := [EvConvert (lit "broken.docx")] |})
  /\ trace {| world := good_answers;
              trace := [EvConvert (lit "broken.docx")] |}
     = trace a_start ++ [EvConvert (lit "broken.docx")].
Proof.
  refine (@failed_conversion_makes_no_other_call _ _ env0 false
            (lit "broken.docx") a_start None
            {| world := good_answers;
               trace := [EvConvert (lit "broken.docx")] |} _ _).
  - vm_compute; reflexivity.
  - left; reflexivity.
Defined.


(** ** Reports *)

(** The report of [a.docx] is made from the record the model answered. *)
Lemma report_fields_come_from_record_witness :
  exists pdf st1 text st2 d st3 st4,
    convert_docx_to_pdf env0 (lit "a.docx") a_start = (Ok (Some pdf), st1)
    /\ resolve_text env0 false pdf st1 = (Ok (Some text), st2)
    /\ extract_structured_ru_data env0 text (removed env0 pdf st2)
       = (Ok (VDict d), st3)
    /\ dict_lookup d (lit "captions_ru") = Some ru
    /\ translate_captions env0 ru (lit "English") st3 = (Ok en, st4)
    /\ translate_captions env0 ru (lit "Kazakh") st4
       = (Ok kz, snd (process_document env0 false (lit "a.docx") a_start))
    /\ py_get (VDict d) (lit "patient_group") NA = Ok (VStr (lit "A"))
    /\ py_get (VDict d) (lit "patient_id") NA = Ok (VStr (lit "17"))
    /\ py_get (VDict d) (lit "age") NA = Ok (VStr (lit "54"))
    /\ py_get (VDict d) (lit "gender") NA = Ok (VStr (lit "F"))
    /\ lit "a.docx" = basename env0 (lit "a.docx")
    /\ truthy en = true
    /\ truthy kz = true.
Proof.
  refine (@report_fields_come_from_record _ _ env0 false (lit "a.docx")
            a_start (good_report "a.docx")
            (snd (process_document env0 false (lit "a.docx") a_start)) _).
  vm_compute; reflexivity.
Defined.

(** The requests of [a.docx] after its text is read. *)
Lemma text_requests_in_order_witness :
  exists posts,
    trace (snd (extract_and_report env0 (lit "a.docx") (lit "a.docx.pdf")
                  long_text a_read))
    = trace a_read ++ EvRemove (lit "a.docx.pdf") :: posts
    /\ (posts = []
        \/ posts = [EvPost (text_payload (extraction_messages long_text))]
        \/ exists c,
             posts = [EvPost (text_payload (extraction_messages long_text));
                      english env0 c]
             \/ posts = [EvPost (text_payload (extraction_messages long_text));
                         english env0 c; kazakh env0 c])
    /\ (forall rep,
          Ok (Some (good_report "a.docx")) = Ok (Some rep) ->
          posts = [EvPost (text_payload (extraction_messages long_text));
                   english env0 (captions_ru rep);
                   kazakh env0 (captions_ru rep)]).
Proof.
  refine (@text_requests_in_order _ _ env0 (lit "a.docx") (lit "a.docx.pdf")
            long_text a_read (Ok (Some (good_report "a.docx")))
            (snd (extract_and_report env0 (lit "a.docx") (lit "a.docx.pdf")
                    long_text a_read)) _).
  vm_compute; reflexivity.
Defined.

(** With no backend to answer, the extraction request of [a.docx] is refused
    and the document is skipped. *)
Lemma failed_extraction_skips_document_witness :
  extract_and_report env0 (lit "a.docx") (lit "a.docx.pdf") long_text
    (start [])
  = (Ok None,
     {| world := [];
        trace := trace (start [])
                 ++ [EvRemove (lit "a.docx.pdf");
                     EvPost (text_payload (extraction_messages long_text))] |}).
Proof.
  refine (@failed_extraction_skips_document _ _ env0 (lit "a.docx")
            (lit "a.docx.pdf") long_text (start [])
            (RequestException (lit "connection refused")) [] _ _ _).
  - vm_compute; discriminate.
  - reflexivity.
  - exact I.
Defined.

(** The model answers the English translation with [null]: the document is
    skipped and the Kazakh translation is not requested. *)
Lemma failed_translation_skips_document_witness :
  report_of env0 (lit "a.docx") (VDict [(lit "captions_ru", ru)])
    (start [Content (lit "null"); Content kz_text])
  = (Ok None,
     {| world := [Content kz_text];
        trace := [english env0 ru] |}).
Proof.
  refine (@failed_translation_skips_document _ _ env0 (lit "a.docx")
            [(lit "captions_ru", ru)] ru
            (start [Content (lit "null"); Content kz_text]) VNone
            {| world := [Content kz_text]; trace := [english env0 ru] |}
            kz
            {| world := []; trace := [english env0 ru; kazakh env0 ru] |}
            _ _ _ _).
  - reflexivity.
  - vm_compute; reflexivity.
  - vm_compute; reflexivity.
  - left; reflexivity.
Defined.

(** ** Forced OCR *)

(** Both pages of [scan.docx], read by OCR with empty answers. *)
Lemma forced_ocr_resolves_page_texts_witness :
  resolve_text env0 true (lit "scan.docx.pdf") blank_converted
  = (Ok (Some (blank_line_joined
                 (fst (page_results env0 [lit "page-1"; lit "page-2"]
                         blank_rasterized)))),
     snd (page_results env0 [lit "page-1"; lit "page-2"] blank_rasterized)).
Proof.
  refine (proj1 (@forced_ocr_resolves_page_texts _ _ env0
                   (lit "scan.docx.pdf") blank_converted
                   [lit "page-1"; lit "page-2"] blank_rasterized _ _)).
  - vm_compute; reflexivity.
  - discriminate.
Defined.

(** [hollow.docx] converts to a PDF without pages: under forced OCR it is
    skipped after the rasterization, and its PDF is not removed. *)
Lemma no_page_image_leaves_temporary_pdf_witness :
  process_document hollow true (lit "hollow.docx") (start [])
  = (Ok None,
     {| world := [];
        trace := [EvConvert (lit "hollow.docx");
                  EvRasterize (lit "hollow.docx.pdf")] |}).
Proof.
  refine (proj1 (@no_page_image_leaves_temporary_pdf _ _ hollow true
                   (lit "hollow.docx") (start []) (lit "hollow.docx.pdf")
                   {| world := [];
                      trace := [EvConvert (lit "hollow.docx")] |}
                   []
                   {| world := [];
                      trace := [EvConvert (lit "hollow.docx")] |}
                   {| world := [];
                      trace := [EvConvert (lit "hollow.docx");
                                EvRasterize (lit "hollow.docx.pdf")] |}
                   _ _ _ _)).
  - vm_compute; reflexivity.
  - reflexivity.
  - reflexivity.
  - vm_compute; reflexivity.
Defined.

(** ** The batch *)

(** Three documents, the second of which fails conversion: three
    conversions, in the order of the input. *)
Lemma every_document_is_converted_once_witness :
  exists evs,
    trace (snd (main env0 false
                  [lit "a.docx"; lit "broken.docx"; lit "c.docx"]
                  (start (good_answers ++ good_answers))))
    = trace (start (good_answers ++ good_answers)) ++ evs
    /\ filter is_convert evs
       = map EvConvert [lit "a.docx"; lit "broken.docx"; lit "c.docx"].
Proof.
  refine (@every_document_is_converted_once _ _ env0 false
            [lit "a.docx"; lit "broken.docx"; lit "c.docx"]
            (start (good_answers ++ good_answers))
            (Some [good_report "a.docx"; good_report "c.docx"])
            (snd (main env0 false
                    [lit "a.docx"; lit "broken.docx"; lit "c.docx"]
                    (start (good_answers ++ good_answers)))) _).
  vm_compute; reflexivity.
Defined.

(** The same batch: two reports, named after the first and the third
    document. *)
Lemma written_reports_follow_the_input_witness :
  [good_report "a.docx"; good_report "c.docx"] <> []
  /\ length [good_report "a.docx"; good_report "c.docx"]
     <= length [lit "a.docx"; lit "broken.docx"; lit "c.docx"]
  /\ subsequence
       (map source_file [good_report "a.docx"; good_report "c.docx"])
       (map (basename env0) [lit "a.docx"; lit "broken.docx"; lit "c.docx"])
  /\ Forall translated [good_report "a.docx"; good_report "c.docx"].
Proof.
  refine (@written_reports_follow_the_input _ _ env0 false
            [lit "a.docx"; lit "broken.docx"; lit "c.docx"]
            (start (good_answers ++ good_answers))
            [good_report "a.docx"; good_report "c.docx"]
            (snd (main env0 false
                    [lit "a.docx"; lit "broken.docx"; lit "c.docx"]
                    (start (good_answers ++ good_answers)))) _).
  vm_compute; reflexivity.
Defined.

(** ** Responses *)


(** The English answer after a line feed and two spaces, and before two line
    feeds. *)
Lemma surrounding_whitespace_is_ignored_witness :
  parse_llm_json_output (padded en_text) = parse_llm_json_output en_text.
Proof.
  refine (@surrounding_whitespace_is_ignored (nl ++ lit "  ") (nl ++ nl)
            en_text _ _); reflexivity.
Defined.

(** An integer of 641 digits, in an interpreter that converts 640. *)
Lemma long_integer_escapes_the_handler_witness :
  parse_llm_json_output_in shallow (repeat (ch "1") 641)
  = Some (Raise ValueError).
Proof.
  refine (@long_integer_escapes_the_handler shallow 640 641 _ _).
  - reflexivity.
  - lia.
Defined.

End Cases.
